(** * Songmu/timeout: the exit classifier and the escalation loop

    A shallow embedding of [timeout.go].  The values of the package
    ([ExitStatus], [Timeout], [Error]) are records, its pure methods are
    functions, and the escalation loop of [handleTimeout] is run against an
    explicit environment: the result of [cmd.Start], the clock readings and
    the successive results of [reflect.Select]. *)

From Stdlib Require Import ZArith Lia Bool.
From stdpp Require Import base list strings.

Local Open Scope Z_scope.

(** ** What the package takes from the Go runtime *)

Module Go.

(** [time.Duration] and the clock are [int64] nanoseconds. *)
Definition maxInt64 : Z := 2 ^ 63 - 1.

Definition int64 (z : Z) : Z := (z + 2 ^ 63) mod 2 ^ 64 - 2 ^ 63.

(** [time.After(d)] called at clock reading [clock]: the instant from which
    the returned channel holds its single value (a duration that is not
    positive expires at once, a sum past the last instant saturates). *)
Definition when (clock d : Z) : Z :=
  if d <=? 0 then clock
  else if maxInt64 <? clock + d then maxInt64 else clock + d.

(** [os.Signal], implemented by [syscall.Signal], an integer. *)
Inductive os_Signal : Set := syscall_Signal (n : Z).

Definition SIGINT : os_Signal := syscall_Signal 2.
Definition SIGKILL : os_Signal := syscall_Signal 9.
Definition SIGTERM : os_Signal := syscall_Signal 15.
Definition Interrupt : os_Signal := SIGINT.

End Go.

Import Go.

(** ** Exit classifier *)

(** exit statuses are same with GNU timeout *)
Definition exitNormal : Z := 0.
Definition exitTimedOut : Z := 124.
Definition exitUnknownErr : Z := 125.
Definition exitKilled : Z := 137.

Inductive exitType : Set :=
| exitTypeNormal
| exitTypeTimedOut
| exitTypeKilled.

(** The [iota] value of each exit type. *)
Definition exitType_iota (t : exitType) : Z :=
  match t with
  | exitTypeNormal => 0
  | exitTypeTimedOut => 1
  | exitTypeKilled => 2
  end.

Definition exitType_eqb (a b : exitType) : bool :=
  exitType_iota a =? exitType_iota b.

Record ExitStatus : Set := mkExitStatus {
  Code : Z;
  Signaled : bool;
  typ : exitType
}.

(** [ExitStatus{}] and the initial value of the named result [ex]. *)
Definition ExitStatus_zero : ExitStatus :=
  {| Code := 0; Signaled := false; typ := exitTypeNormal |}.

Definition IsTimedOut (ex : ExitStatus) : bool :=
  exitType_eqb (typ ex) exitTypeTimedOut || exitType_eqb (typ ex) exitTypeKilled.

Definition IsKilled (ex : ExitStatus) : bool :=
  exitType_eqb (typ ex) exitTypeKilled.

Definition GetExitCode (ex : ExitStatus) : Z :=
  if IsKilled ex then exitKilled
  else if IsTimedOut ex then exitTimedOut
  else Code ex.

Definition GetChildExitCode (ex : ExitStatus) : Z := Code ex.

(** ** Errors *)

(** A Go [error] is either the package's [*Error] or any other error, of
    which only the message is kept. *)
Inductive error : Set :=
| errorOther (msg : string)
| errorTimeout (e : Error)
with Error : Set :=
| mkError (ExitCode : Z) (Err : error).

Definition ExitCode (e : Error) : Z := match e with mkError c _ => c end.
Definition Err (e : Error) : error := match e with mkError _ r => r end.

(** The argument is [None] for a nil error. *)
Definition getExitCodeFromErr (err : option error) : Z :=
  match err with
  | Some (errorTimeout tmerr) => ExitCode tmerr
  | Some (errorOther _) => -1
  | None => exitNormal
  end.

(** ** Configuration *)

Record exec_Cmd : Set := { Path : string; Args : list string }.

Record Timeout : Set := mkTimeout {
  Duration : Z;
  KillAfter : Z;
  Signal : option os_Signal;
  Foreground : bool;
  Cmd : exec_Cmd
}.

(** ** Collaborators

    The build target and the functions of [syscall] and
    [github.com/Songmu/wrapcommander] that the package calls. *)
Class Platform : Type := {
  GOOS : string;
  WaitStatus : Set;
  WaitStatus_Signaled : WaitStatus -> bool;
  WaitStatusToExitCode : WaitStatus -> Z;
  ErrorToWaitStatus : option error -> WaitStatus * bool;
  ResolveExitCode : error -> Z
}.

(** What the supervisor does, in the order it does it.  The two goroutines
    of [RunSimple] that copy the pipes are left out. *)
Inductive Action : Set :=
| ActStart
| ActSelect (chosen : nat)
| ActSignal (sig : os_Signal) (group : bool)
| ActKillall (group : bool)
| ActProcessKill
| ActSend (ex : ExitStatus)
| ActStderr (err : error).

Definition is_signal (a : Action) : bool :=
  match a with ActSignal _ _ => true | _ => false end.
Definition is_killall (a : Action) : bool :=
  match a with ActKillall _ => true | _ => false end.
Definition is_process_kill (a : Action) : bool :=
  match a with ActProcessKill => true | _ => false end.

(** A case of the [reflect.Select] slice.  The channel of [getExitChan] gets
    the wait status when the process has exited; a channel of [time.After]
    gets one value, at [fire_at], and [spent] tells that it was received. *)
Inductive SelectCase : Set :=
| CaseExit
| CaseAfter (fire_at : Z) (spent : bool).

(** Whether a receive on the channel can proceed at [clock].  The child may
    exit at any time; when several cases are ready Go chooses among them as
    it pleases. *)
Definition ready (c : SelectCase) (clock : Z) : bool :=
  match c with
  | CaseExit => true
  | CaseAfter fire_at spent => negb spent && (fire_at <=? clock)
  end.

Definition receive (c : SelectCase) : SelectCase :=
  match c with
  | CaseExit => CaseExit
  | CaseAfter fire_at _ => CaseAfter fire_at true
  end.

Section Supervisor.

Context `{P : Platform}.

(** ** Signal policy *)

(** [init] *)
Definition init : os_Signal :=
  if String.eqb GOOS "windows" then Interrupt else SIGTERM.

Definition defaultSignal : os_Signal := init.

Definition signal (tio : Timeout) : os_Signal :=
  match Signal tio with
  | None => defaultSignal
  | Some s => s
  end.

(** Modelled from the spec: [terminate], whose platform files are not part
    of the sources at hand, delivers the configured signal, to the whole
    process group if [Foreground], else to the process alone. *)
Definition terminate (tio : Timeout) : list Action :=
  [ActSignal (signal tio) (Foreground tio)].

(** Modelled from the spec: [killall], from the same platform files,
    delivers the forced kill, group-wide if [Foreground]. *)
Definition killall (tio : Timeout) : list Action :=
  [ActKillall (Foreground tio)].

(** ** Environment *)

(** The dynamic type of [recv.Interface()].  The channel of [getExitChan]
    carries wait statuses only, so what the program receives on the exit
    case is a [RecvWaitStatus]; [RecvOther] stands for the branch in which
    the type assertion fails. *)
Inductive Received : Set :=
| RecvWaitStatus (st : WaitStatus)
| RecvOther.

(** [getExitChan]: the status sent on the channel once [cmd.Wait] has
    returned [err]; the second result of [ErrorToWaitStatus] is dropped. *)
Definition getExitChan (err : option error) : WaitStatus :=
  fst (ErrorToWaitStatus err).

(** One result of [reflect.Select]: the clock when it returns, the index
    chosen and the value received. *)
Record Selected : Set := mkSelected {
  sel_clock : Z;
  chosen : nat;
  recv : Received
}.

Record World : Set := mkWorld {
  start_err : option error;     (* cmd.Start() *)
  clock_timeout : Z;            (* clock at time.After(tio.Duration) *)
  clock_kill : Z;               (* clock at the second time.After *)
  selects : list Selected;      (* successive results of reflect.Select *)
  child_stdout : string;        (* what the child writes to its stdout *)
  child_stderr : string;
  stdout_pipe_err : option error;   (* cmd.StdoutPipe() *)
  stderr_pipe_err : option error    (* cmd.StderrPipe() *)
}.

(** ** Escalation loop *)

Record Loop : Set := mkLoop {
  l_ex : ExitStatus;
  l_cases : list SelectCase;
  l_clock : Z;
  l_acts : list Action
}.

(** How a run against a schedule of selections ends: the loop returned;
    the schedule is used up and [reflect.Select] blocks in state [s]; or the
    schedule asks [reflect.Select] for a result it cannot give. *)
Inductive Outcome : Set :=
| Returned (ex : ExitStatus) (acts : list Action)
| Waiting (s : Loop)
| Impossible.

(** [reflect.Select(cases)] returning [e]: the clock does not go back, the
    index is one of the slice and its channel holds a value, which the
    receive takes. *)
Definition reflect_Select (s : Loop) (e : Selected) : option (list SelectCase) :=
  if l_clock s <=? sel_clock e then
    match l_cases s !! chosen e with
    | Some c =>
        if ready c (sel_clock e)
        then Some (<[chosen e := receive c]> (l_cases s))
        else None
    | None => None
    end
  else None.

Definition set_typ (ex : ExitStatus) (t : exitType) : ExitStatus :=
  {| Code := Code ex; Signaled := Signaled ex; typ := t |}.

(** The body of the [for], after [reflect.Select] returned [e] and left
    the cases as [cases']: [inr] is [return ex]. *)
Definition body (tio : Timeout) (s : Loop) (e : Selected)
    (cases' : list SelectCase) : Loop + ExitStatus * list Action :=
  let acts := l_acts s ++ [ActSelect (chosen e)] in
  match chosen e with
  | 0%nat =>
      let ex :=
        match recv e with
        | RecvWaitStatus st =>
            {| Code := WaitStatusToExitCode st;
               Signaled := WaitStatus_Signaled st;
               typ := typ (l_ex s) |}
        | RecvOther => l_ex s
        end in
      inr (ex, acts)
  | 1%nat =>
      inl {| l_ex := set_typ (l_ex s) exitTypeTimedOut;
             l_cases := cases';
             l_clock := sel_clock e;
             l_acts := acts ++ terminate tio |}
  | 2%nat =>
      inl {| l_ex := set_typ (l_ex s) exitTypeKilled;
             l_cases := cases';
             l_clock := sel_clock e;
             l_acts := acts ++ killall tio ++ [ActProcessKill] |}
  | _ =>
      inl {| l_ex := l_ex s;
             l_cases := cases';
             l_clock := sel_clock e;
             l_acts := acts |}
  end.

(** One turn of the loop; [None] when [reflect.Select] cannot return [e]. *)
Definition iteration (tio : Timeout) (s : Loop) (e : Selected)
    : option (Loop + ExitStatus * list Action) :=
  match reflect_Select s e with
  | None => None
  | Some cases' => Some (body tio s e cases')
  end.

Fixpoint loop (tio : Timeout) (s : Loop) (es : list Selected) : Outcome :=
  match es with
  | [] => Waiting s
  | e :: es' =>
      match iteration tio s e with
      | None => Impossible
      | Some (inr (ex, acts)) => Returned ex acts
      | Some (inl s') => loop tio s' es'
      end
  end.

(** The states in which the loop comes back to [reflect.Select]. *)
Fixpoint states (tio : Timeout) (s : Loop) (es : list Selected) : list Loop :=
  match es with
  | [] => []
  | e :: es' =>
      match iteration tio s e with
      | Some (inl s') => s' :: states tio s' es'
      | _ => []
      end
  end.

(** The slice built before the loop. *)
Definition cases_of (tio : Timeout) (w : World) : list SelectCase :=
  [CaseExit; CaseAfter (when (clock_timeout w) (Duration tio)) false]
  ++ (if 0 <? KillAfter tio
      then [CaseAfter (when (clock_kill w)
                         (int64 (Duration tio + KillAfter tio))) false]
      else []).

Definition loop_entry (tio : Timeout) (w : World) : Loop :=
  {| l_ex := ExitStatus_zero;
     l_cases := cases_of tio w;
     l_clock := if 0 <? KillAfter tio then clock_kill w else clock_timeout w;
     l_acts := [] |}.

(** The second [time.After], when there is one, is not evaluated before
    the first. *)
Definition clock_ok (tio : Timeout) (w : World) : bool :=
  negb (0 <? KillAfter tio) || (clock_timeout w <=? clock_kill w).

Definition handleTimeout (tio : Timeout) (w : World) : Outcome :=
  if clock_ok tio w
  then loop tio (loop_entry tio w) (selects w)
  else Impossible.

End Supervisor.

Section Facades.

Context `{P : Platform}.

Definition acts_of (o : Outcome) : list Action :=
  match o with
  | Returned _ acts => acts
  | Waiting s => l_acts s
  | Impossible => []
  end.

Definition feasible (o : Outcome) : bool :=
  match o with Impossible => false | _ => true end.

(** The phase of [ex] at loop entry and each time the loop comes back to
    [reflect.Select]. *)
Definition phases (tio : Timeout) (w : World) : list exitType :=
  exitTypeNormal
    :: map (fun s => typ (l_ex s)) (states tio (loop_entry tio w) (selects w)).

(** [go func() { exitChan <- tio.handleTimeout() }()] *)
Definition goroutine (tio : Timeout) (w : World) : list Action :=
  match handleTimeout tio w with
  | Returned ex acts => acts ++ [ActSend ex]
  | Waiting s => l_acts s
  | Impossible => []
  end.

(** A channel of [ExitStatus] is seen as the values sent on it. *)
Definition sent (acts : list Action) : list ExitStatus :=
  omap (fun a => match a with ActSend ex => Some ex | _ => None end) acts.

(** [RunCommand]: the channel ([None] is nil), the error, what was done. *)
Definition RunCommand (tio : Timeout) (w : World)
    : option (list ExitStatus) * option error * list Action :=
  match start_err w with
  | Some err =>
      (None,
       Some (errorTimeout (mkError (ResolveExitCode err) err)),
       [ActStart])
  | None =>
      let g := goroutine tio w in
      (Some (sent g), None, ActStart :: g)
  end.

(** [<-ch]: [None] when the receive blocks for ever. *)
Definition chan_recv (ch : option (list ExitStatus)) : option ExitStatus :=
  match ch with
  | Some (ex :: _) => Some ex
  | _ => None
  end.

(** [Run]: [None] when the call does not return. *)
Definition Run (tio : Timeout) (w : World)
    : option (ExitStatus * string * string * option error) * list Action :=
  match RunCommand tio w with
  | (_, Some err, acts) =>
      (Some (ExitStatus_zero, EmptyString, EmptyString, Some err),
       acts ++ [ActStderr err])
  | (ch, None, acts) =>
      match chan_recv ch with
      | Some exitSt =>
          (Some (exitSt, child_stdout w, child_stderr w, None), acts)
      | None => (None, acts)
      end
  end.

Definition RunSimple (tio : Timeout) (preserveStatus : bool) (w : World)
    : option Z * list Action :=
  match stdout_pipe_err w with
  | Some err => (Some exitUnknownErr, [ActStderr err])
  | None =>
  match stderr_pipe_err w with
  | Some err => (Some exitUnknownErr, [ActStderr err])
  | None =>
  match RunCommand tio w with
  | (_, Some err, acts) =>
      (Some (getExitCodeFromErr (Some err)), acts ++ [ActStderr err])
  | (ch, None, acts) =>
      match chan_recv ch with
      | Some exitSt =>
          (Some (if preserveStatus
                 then GetChildExitCode exitSt
                 else GetExitCode exitSt), acts)
      | None => (None, acts)
      end
  end end end.

End Facades.

(** ** Observations on a run *)

Fixpoint count (f : Action -> bool) (acts : list Action) : nat :=
  match acts with
  | [] => 0
  | a :: acts' => (if f a then 1 else 0) + count f acts'
  end.

Definition is_select (i : nat) (a : Action) : bool :=
  match a with ActSelect j => Nat.eqb i j | _ => false end.

Definition is_send (a : Action) : bool :=
  match a with ActSend _ => true | _ => false end.

(** The kill-after case is chosen only when the timeout case was. *)
Fixpoint timeout_first (seen : bool) (acts : list Action) : bool :=
  match acts with
  | [] => true
  | ActSelect 1 :: acts' => timeout_first true acts'
  | ActSelect 2 :: acts' => seen && timeout_first seen acts'
  | _ :: acts' => timeout_first seen acts'
  end.

Definition phase_le (a b : exitType) : bool :=
  exitType_iota a <=? exitType_iota b.

Fixpoint forward (l : list exitType) : bool :=
  match l with
  | a :: (b :: _) as l' => phase_le a b && forward l'
  | _ => true
  end.

(** The flag of the timer at index [i], if there is one. *)
Definition spent_at (i : nat) (cases : list SelectCase) : option bool :=
  match cases !! i with
  | Some (CaseAfter _ b) => Some b
  | _ => None
  end.

(** A target to run the definitions on: a [uint32] wait status as on Linux,
    its low seven bits the signal and the next eight the exit status. *)
Definition linux : Platform := {|
  GOOS := "linux";
  WaitStatus := Z;
  WaitStatus_Signaled := fun st =>
    negb (Z.land st 127 =? 127) && negb (Z.land st 127 =? 0);
  WaitStatusToExitCode := fun st =>
    if negb (Z.land st 127 =? 127) && negb (Z.land st 127 =? 0)
    then 128 + Z.land st 127
    else Z.land (Z.shiftr st 8) 255;
  ErrorToWaitStatus := fun _ => (0, false);
  ResolveExitCode := fun _ => 127
|}.

Definition windows : Platform := {|
  GOOS := "windows";
  WaitStatus := Z;
  WaitStatus_Signaled := fun _ => false;
  WaitStatusToExitCode := fun st => st;
  ErrorToWaitStatus := fun _ => (0, false);
  ResolveExitCode := fun _ => 127
|}.

(** The two readings of the phase invariant: the recorded phases never go
    back, and from a state in phase Killed [reflect.Select] can return the
    process-exit case only. *)
Definition phase_only_forward `{P : Platform} (tio : Timeout) (w : World) : Prop :=
  forward (phases tio w) = true.

Definition only_exit_after_kill `{P : Platform} (tio : Timeout) (w : World) : Prop :=
  forall s, s ∈ states tio (loop_entry tio w) (selects w) ->
    typ (l_ex s) = exitTypeKilled ->
    forall e r, iteration tio s e = Some r -> chosen e = 0%nat.

(** ** Sample invocations on Linux *)

Definition sleep_cmd : exec_Cmd := {| Path := "sleep"; Args := ["10"] |}.

(** A tenth of a second, then a tenth of a second more. *)
Definition sleep10 : Timeout :=
  {| Duration := 100000000; KillAfter := 100000000; Signal := None;
     Foreground := false; Cmd := sleep_cmd |}.

Definition sleep10_no_kill : Timeout :=
  {| Duration := 100000000; KillAfter := 0; Signal := None;
     Foreground := false; Cmd := sleep_cmd |}.

(** One nanosecond, then one more. *)
Definition sleep10_short : Timeout :=
  {| Duration := 1; KillAfter := 1; Signal := None;
     Foreground := false; Cmd := sleep_cmd |}.

Definition select_at (t : Z) (i : nat) (st : Z) : @Selected linux :=
  @mkSelected linux t i (@RecvWaitStatus linux st).

Definition world_of (es : list (@Selected linux)) : @World linux :=
  @mkWorld linux None 0 0 es "out" "err" None None.

(** Signal at 0.1s, forced kill at 0.2s, the child dies of signal 9. *)
Definition world_escalated : @World linux :=
  world_of [select_at 100000000 1 0; select_at 200000000 2 0;
            select_at 200000500 0 9].

(** Signal at 0.1s, the child dies of signal 15. *)
Definition world_signaled : @World linux :=
  world_of [select_at 100000000 1 0; select_at 100000500 0 15].

(** The first [reflect.Select] returns when both timers have expired and
    takes the kill-after one; the next takes the timeout. *)
Definition world_late : @World linux :=
  world_of [select_at 2 2 0; select_at 2 1 0; select_at 700 0 9].





Definition world_no_spawn : @World linux :=
  @mkWorld linux (Some (errorOther "exec: not found")) 0 0
    [select_at 100000000 1 0; select_at 100000500 0 15]
    "out" "err" None None.

(** ** Further observations and samples *)

(** The phase that handling the case of index [i] leaves. *)
Definition phase_set (t : exitType) (i : nat) : exitType :=
  match i with
  | 1%nat => exitTypeTimedOut
  | 2%nat => exitTypeKilled
  | _ => t
  end.

(** The exit code a command-line tool derives from what [Run] returns. *)
Definition status_code (preserveStatus : bool)
    (r : ExitStatus * string * string * option error) : Z :=
  match r with
  | (_, _, _, Some err) => getExitCodeFromErr (Some err)
  | (ex, _, _, None) =>
      if preserveStatus then GetChildExitCode ex else GetExitCode ex
  end.

Definition is_start (a : Action) : bool :=
  match a with ActStart => true | _ => false end.

(** The timer at index [i] of the slice is the one due at [fire_at], and it
    was received from only at or after that instant. *)
Definition timer_due (i : nat) (fire_at : Z) (s : Loop) : Prop :=
  exists b, l_cases s !! i = Some (CaseAfter fire_at b)
            /\ (b = true -> fire_at <= l_clock s).

(** The sum of the two durations does not fit in [int64]. *)
Definition sleep10_overflow : Timeout :=
  {| Duration := maxInt64; KillAfter := 1; Signal := None;
     Foreground := false; Cmd := sleep_cmd |}.

Definition sleep10_negative : Timeout :=
  {| Duration := 100000000; KillAfter := -1; Signal := Some SIGINT;
     Foreground := true; Cmd := sleep_cmd |}.

(** The child exits with status 3 before any timer. *)
Definition world_quick : @World linux :=
  world_of [select_at 5000 0 768].

Definition world_no_pipe : @World linux :=
  @mkWorld linux None 0 0
    [select_at 100000000 1 0; select_at 100000500 0 15]
    "out" "err" None (Some (errorOther "pipe: too many open files")).

(** ** Invariants of the escalation loop *)

(** The two shapes of the slice: without and with the kill-after case. *)
Inductive armed : list SelectCase -> Prop :=
| armed_two w1 b1 : armed [CaseExit; CaseAfter w1 b1]
| armed_three w1 b1 w2 b2 :
    armed [CaseExit; CaseAfter w1 b1; CaseAfter w2 b2].

Definition fired (o : option bool) : nat :=
  match o with Some true => 1 | _ => 0 end.

Section Invariants.

Context `{P : Platform}.

(** What one turn of the loop can be. *)
Inductive turn (tio : Timeout) (s : Loop) (e : Selected)
    : Loop + ExitStatus * list Action -> Prop :=
| turn_exit ex :
    chosen e = 0%nat ->
    typ ex = typ (l_ex s) ->
    (recv e = RecvOther -> ex = l_ex s) ->
    turn tio s e (inr (ex, l_acts s ++ [ActSelect 0]))
| turn_timeout s' :
    chosen e = 1%nat ->
    spent_at 1 (l_cases s) = Some false ->
    armed (l_cases s') ->
    spent_at 1 (l_cases s') = Some true ->
    spent_at 2 (l_cases s') = spent_at 2 (l_cases s) ->
    l_ex s' = set_typ (l_ex s) exitTypeTimedOut ->
    l_acts s' =
      l_acts s ++ [ActSelect 1; ActSignal (signal tio) (Foreground tio)] ->
    turn tio s e (inl s')
| turn_kill s' :
    chosen e = 2%nat ->
    spent_at 2 (l_cases s) = Some false ->
    armed (l_cases s') ->
    spent_at 2 (l_cases s') = Some true ->
    spent_at 1 (l_cases s') = spent_at 1 (l_cases s) ->
    l_ex s' = set_typ (l_ex s) exitTypeKilled ->
    l_acts s' =
      l_acts s ++ [ActSelect 2; ActKillall (Foreground tio); ActProcessKill] ->
    turn tio s e (inl s').

(** Each timer was received as many times as its event was handled, and
    the phase tells which timers are spent. *)
Record inv (s : Loop) : Prop := {
  inv_armed : armed (l_cases s);
  inv_select0 : count (is_select 0) (l_acts s) = 0%nat;
  inv_select1 : count (is_select 1) (l_acts s) = fired (spent_at 1 (l_cases s));
  inv_signal : count is_signal (l_acts s) = fired (spent_at 1 (l_cases s));
  inv_select2 : count (is_select 2) (l_acts s) = fired (spent_at 2 (l_cases s));
  inv_killall : count is_killall (l_acts s) = fired (spent_at 2 (l_cases s));
  inv_process_kill :
    count is_process_kill (l_acts s) = fired (spent_at 2 (l_cases s));
  inv_send : count is_send (l_acts s) = 0%nat;
  inv_code : Code (l_ex s) = 0;
  inv_signaled : Signaled (l_ex s) = false;
  inv_normal :
    typ (l_ex s) = exitTypeNormal ->
    fired (spent_at 1 (l_cases s)) = 0%nat /\ fired (spent_at 2 (l_cases s)) = 0%nat;
  inv_timedout :
    typ (l_ex s) = exitTypeTimedOut -> spent_at 1 (l_cases s) = Some true;
  inv_killed :
    typ (l_ex s) = exitTypeKilled -> spent_at 2 (l_cases s) = Some true
}.

End Invariants.

(** ** Properties *)

Lemma count_app f l1 l2 : count f (l1 ++ l2) = (count f l1 + count f l2)%nat.
Proof.
  induction l1 as [|a l1 IH]; simpl; [reflexivity|].
  rewrite IH. lia.
Qed.

Lemma timeout_first_prefix l1 l2 seen :
  timeout_first seen (l1 ++ l2) = true -> timeout_first seen l1 = true.
Proof.
  revert seen. induction l1 as [|a l1 IH]; intros seen; simpl; [reflexivity|].
  destruct a as [|[|[|[|n]]]| | | | |]; try apply IH.
  destruct seen; simpl; [apply IH|discriminate].
Qed.

Lemma timeout_first_kill l :
  timeout_first false l = true ->
  count (is_select 1) l = 0%nat -> count (is_select 2) l = 0%nat.
Proof.
  induction l as [|a l IH]; simpl; [reflexivity|].
  destruct a as [|[|[|[|n]]]| | | | |]; simpl; try exact IH; discriminate.
Qed.

Section Properties.

Context `{P : Platform}.

Lemma cases_of_armed tio w : armed (cases_of tio w).
Proof.
  unfold cases_of. destruct (0 <? KillAfter tio); simpl; constructor.
Qed.

Lemma iteration_turn tio s e r :
  armed (l_cases s) -> iteration tio s e = Some r -> turn tio s e r.
Proof.
  unfold iteration, reflect_Select, body.
  destruct s as [ex cases clk acts]; simpl. intros Ha.
  destruct (clk <=? sel_clock e); [|discriminate].
  destruct (chosen e) as [|[|[|n]]] eqn:Hc;
    inversion Ha as [w1 b1 Hl|w1 b1 w2 b2 Hl]; subst cases; simpl;
    repeat match goal with
    | |- context [negb ?b && (?x <=? ?t)] =>
        destruct b; simpl; [|destruct (x <=? t); simpl]
    end; try discriminate; intros [= <-].
  - apply turn_exit;
      [assumption | destruct (recv e); reflexivity | intros ->; reflexivity].
  - apply turn_exit;
      [assumption | destruct (recv e); reflexivity | intros ->; reflexivity].
  - apply turn_timeout; simpl; rewrite <- ?app_assoc;
      first [assumption | reflexivity | apply armed_two].
  - apply turn_timeout; simpl; rewrite <- ?app_assoc;
      first [assumption | reflexivity | apply armed_three].
  - apply turn_kill; simpl; rewrite <- ?app_assoc;
      first [assumption | reflexivity | apply armed_three].
Qed.

Lemma inv_entry tio w : inv (loop_entry tio w).
Proof.
  unfold loop_entry, cases_of.
  destruct (0 <? KillAfter tio); constructor; simpl;
    first [reflexivity | apply armed_two | apply armed_three
          | intros; first [discriminate | split; reflexivity]].
Qed.

Lemma inv_turn tio s e s' : inv s -> turn tio s e (inl s') -> inv s'.
Proof.
  intros [Ha H0 H1 Hsig H2 Hk Hpk Hsend Hc Hs Hn Ht Hkd] Hturn.
  inversion Hturn as [|s1 Hch Hold Ha' Hnew Hother Hex Hacts
                      |s1 Hch Hold Ha' Hnew Hother Hex Hacts]; subst s1.
  - constructor; rewrite ?Hacts, ?count_app, ?Hex, ?Hnew, ?Hother; simpl;
      rewrite ?H0, ?H1, ?Hsig, ?H2, ?Hk, ?Hpk, ?Hsend, ?Hold; simpl;
      first [assumption | reflexivity | discriminate | lia | idtac].
  - constructor; rewrite ?Hacts, ?count_app, ?Hex, ?Hnew, ?Hother; simpl;
      rewrite ?H0, ?H1, ?Hsig, ?H2, ?Hk, ?Hpk, ?Hsend, ?Hold; simpl;
      first [assumption | reflexivity | discriminate | lia | idtac].
Qed.

Lemma loop_outcome tio es : forall s,
  inv s ->
  Forall inv (states tio s es) /\
  match loop tio s es with
  | Returned ex acts =>
      exists s' e,
        last (s :: states tio s es) = Some s' /\
        es !! length (states tio s es) = Some e /\
        chosen e = 0%nat /\
        acts = l_acts s' ++ [ActSelect 0] /\
        typ ex = typ (l_ex s') /\
        (recv e = RecvOther -> ex = l_ex s')
  | Waiting s' =>
      last (s :: states tio s es) = Some s' /\
      length (states tio s es) = length es
  | Impossible => True
  end.
Proof.
  induction es as [|e es IH]; intros s Hi; simpl.
  - split; [constructor|]. split; reflexivity.
  - destruct (iteration tio s e) as [[s1|[ex acts]]|] eqn:Hit;
      [| |split; [constructor|exact I]].
    + pose proof (iteration_turn _ _ _ _ (inv_armed _ Hi) Hit) as Ht.
      pose proof (inv_turn _ _ _ _ Hi Ht) as Hi1.
      destruct (IH s1 Hi1) as [Hall Hout]. split; [constructor; assumption|].
      destruct (loop tio s1 es) as [ex acts|s2|]; [| |exact I].
      * destruct Hout as (s' & e' & Hl & He & Hrest).
        exists s', e'. split; [|split]; [| exact He | exact Hrest].
        rewrite <- Hl. reflexivity.
      * destruct Hout as [Hl Hlen]. split; [|simpl; congruence].
        rewrite <- Hl. reflexivity.
    + pose proof (iteration_turn _ _ _ _ (inv_armed _ Hi) Hit) as Ht.
      split; [constructor|]. inversion Ht as [ex' Hch Htyp Hrecv| |]; subst.
      exists s, e. repeat split; auto.
Qed.

Lemma loop_acts_prefix tio es : forall s,
  inv s -> feasible (loop tio s es) = true ->
  forall s', s' ∈ s :: states tio s es ->
  exists k, acts_of (loop tio s es) = l_acts s' ++ k.
Proof.
  induction es as [|e es IH]; intros s Hi Hf s' Hin; simpl in *.
  - apply list_elem_of_singleton in Hin. subst s'.
    exists []. symmetry. apply app_nil_r.
  - destruct (iteration tio s e) as [[s1|[ex acts]]|] eqn:Hit;
      [| |discriminate].
    + pose proof (iteration_turn _ _ _ _ (inv_armed _ Hi) Hit) as Ht.
      pose proof (inv_turn _ _ _ _ Hi Ht) as Hi1.
      apply elem_of_cons in Hin. destruct Hin as [->|Hin].
      * destruct (IH s1 Hi1 Hf s1) as [k Hk]; [left|].
        rewrite Hk.
        inversion Ht as [|? ? ? ? ? ? ? Hacts|? ? ? ? ? ? ? Hacts];
          rewrite Hacts, <- app_assoc; eexists; reflexivity.
      * apply (IH s1 Hi1 Hf s' Hin).
    + pose proof (iteration_turn _ _ _ _ (inv_armed _ Hi) Hit) as Ht.
      apply list_elem_of_singleton in Hin. subst s'.
      inversion Ht; subst. eexists; reflexivity.
Qed.

Lemma loop_final tio es s :
  inv s -> feasible (loop tio s es) = true ->
  exists s',
    s' ∈ s :: states tio s es /\
    last (s :: states tio s es) = Some s' /\
    inv s' /\
    match loop tio s es with
    | Returned ex acts =>
        acts = l_acts s' ++ [ActSelect 0] /\ typ ex = typ (l_ex s')
    | Waiting s2 => s2 = s'
    | Impossible => False
    end.
Proof.
  intros Hi Hf. destruct (loop_outcome tio es s Hi) as [Hall Hout].
  assert (Hinv : forall x, x ∈ s :: states tio s es -> inv x).
  { intros x Hx. apply elem_of_cons in Hx. destruct Hx as [->|Hx]; [exact Hi|].
    rewrite Forall_forall in Hall. apply Hall, Hx. }
  destruct (loop tio s es) as [ex acts|s2|]; [| |discriminate].
  - destruct Hout as (s' & e & Hl & _ & _ & Hacts & Htyp & _).
    exists s'. pose proof (last_Some_elem_of _ _ Hl) as Hin. auto.
  - destruct Hout as [Hl _].
    exists s2. pose proof (last_Some_elem_of _ _ Hl) as Hin. auto.
Qed.

Lemma states_preserve (Q : Loop -> Prop) tio :
  (forall s e s', inv s -> Q s -> turn tio s e (inl s') -> Q s') ->
  forall es s, inv s -> Q s -> Forall Q (states tio s es).
Proof.
  intros Hstep. induction es as [|e es IH]; intros s Hi Hq; simpl;
    [constructor|].
  destruct (iteration tio s e) as [[s1|?]|] eqn:Hit; try constructor.
  - pose proof (iteration_turn _ _ _ _ (inv_armed _ Hi) Hit) as Ht.
    eapply Hstep; eassumption.
  - pose proof (iteration_turn _ _ _ _ (inv_armed _ Hi) Hit) as Ht.
    apply IH; [eapply inv_turn|eapply Hstep]; eassumption.
Qed.

Lemma iteration_exit tio s e s' :
  iteration tio s e = Some (inl s') -> chosen e <> 0%nat.
Proof.
  unfold iteration, body. destruct (reflect_Select s e); [|discriminate].
  destruct (chosen e); [discriminate|auto].
Qed.

Lemma loop_returns tio es : forall s,
  feasible (loop tio s es) = true ->
  Exists (fun e => chosen e = 0%nat) es ->
  exists ex acts, loop tio s es = Returned ex acts.
Proof.
  induction es as [|e es IH]; intros s Hf Hex; simpl in *.
  - inversion Hex.
  - destruct (iteration tio s e) as [[s1|[ex acts]]|] eqn:Hit;
      [|eauto|discriminate].
    apply IH; [exact Hf|].
    inversion Hex as [? ? Hc|]; subst; [|assumption].
    exfalso. eapply iteration_exit; eassumption.
Qed.

Lemma acts_at_most_once tio w :
  let acts := acts_of (handleTimeout tio w) in
  (count (is_select 1) acts <= 1)%nat
  /\ (count (is_select 2) acts <= 1)%nat
  /\ (count is_signal acts <= 1)%nat
  /\ (count is_killall acts <= 1)%nat
  /\ (count is_process_kill acts <= 1)%nat.
Proof.
  unfold handleTimeout.
  destruct (clock_ok tio w); [|simpl; lia].
  destruct (feasible (loop tio (loop_entry tio w) (selects w))) eqn:Hf.
  - destruct (loop_final tio _ _ (inv_entry tio w) Hf)
      as (s' & _ & _ & [_ _ H1 Hs H2 Hk Hp _ _ _ _ _ _] & Hout).
    assert (Hb : forall o, (fired o <= 1)%nat) by (intros [[]|]; simpl; lia).
    destruct (loop tio (loop_entry tio w) (selects w)) as [ex acts|s2|];
      [destruct Hout as [-> _]|subst s2|contradiction]; simpl;
      rewrite ?count_app, ?H1, ?Hs, ?H2, ?Hk, ?Hp; simpl;
      pose proof (Hb (spent_at 1 (l_cases s')));
      pose proof (Hb (spent_at 2 (l_cases s'))); lia.
  - destruct (loop tio (loop_entry tio w) (selects w)); try discriminate.
    simpl. lia.
Qed.

(** When the kill-after case is chosen only after the timeout case, a
    spent kill-after timer means a spent timeout timer. *)
Lemma in_order_state tio es s s' :
  inv s -> feasible (loop tio s es) = true ->
  timeout_first false (acts_of (loop tio s es)) = true ->
  s' ∈ s :: states tio s es ->
  inv s' /\
  (spent_at 2 (l_cases s') = Some true -> spent_at 1 (l_cases s') = Some true).
Proof.
  intros Hi Hf Ho Hin.
  assert (Hi' : inv s').
  { apply elem_of_cons in Hin. destruct Hin as [->|Hin]; [exact Hi|].
    pose proof (proj1 (loop_outcome tio es s Hi)) as Hall.
    rewrite Forall_forall in Hall. apply Hall, Hin. }
  split; [exact Hi'|]. intros H2.
  destruct (loop_acts_prefix tio es s Hi Hf s' Hin) as [k Hk].
  rewrite Hk in Ho. apply timeout_first_prefix in Ho.
  pose proof (timeout_first_kill _ Ho) as Hc.
  rewrite (inv_select1 _ Hi'), (inv_select2 _ Hi'), H2 in Hc.
  destruct (spent_at 1 (l_cases s')) as [[]|]; simpl in Hc;
    [reflexivity|discriminate (Hc eq_refl)|discriminate (Hc eq_refl)].
Qed.

Lemma forward_states tio es : forall s,
  inv s ->
  (forall s', s' ∈ s :: states tio s es ->
     typ (l_ex s') = exitTypeKilled -> spent_at 1 (l_cases s') = Some true) ->
  forward (typ (l_ex s) :: map (fun s => typ (l_ex s)) (states tio s es)) = true.
Proof.
  induction es as [|e es IH]; intros s Hi Hord; simpl; [reflexivity|].
  destruct (iteration tio s e) as [[s1|?]|] eqn:Hit; try reflexivity.
  pose proof (iteration_turn _ _ _ _ (inv_armed _ Hi) Hit) as Ht.
  assert (Hord' : forall s', s' ∈ s :: s1 :: states tio s1 es ->
            typ (l_ex s') = exitTypeKilled ->
            spent_at 1 (l_cases s') = Some true).
  { intros s' Hs'. apply Hord. simpl. rewrite Hit. exact Hs'. }
  change (phase_le (typ (l_ex s)) (typ (l_ex s1))
          && forward (typ (l_ex s1)
               :: map (fun s => typ (l_ex s)) (states tio s1 es)) = true).
  rewrite IH; [|eapply inv_turn; eassumption|].
  - rewrite andb_true_r.
    inversion Ht as [|? _ Hold _ _ _ Hex _|? _ _ _ _ _ Hex _]; subst;
      rewrite Hex; simpl.
    + destruct (typ (l_ex s)) eqn:Htyp; try reflexivity.
      pose proof (Hord' s ltac:(left) Htyp). congruence.
    + destruct (typ (l_ex s)); reflexivity.
  - intros s' Hs'. apply Hord'. right. exact Hs'.
Qed.


(** The status that [getExitChan] sends is decoded whether or not
    [ErrorToWaitStatus] could classify the result of [cmd.Wait]. *)
Lemma iteration_wait_status tio s e err r :
  chosen e = 0%nat ->
  recv e = RecvWaitStatus (getExitChan err) ->
  iteration tio s e = Some r ->
  r = inr ({| Code := WaitStatusToExitCode (ErrorToWaitStatus err).1;
              Signaled := WaitStatus_Signaled (ErrorToWaitStatus err).1;
              typ := typ (l_ex s) |},
           l_acts s ++ [ActSelect 0]).
Proof.
  unfold iteration, body, getExitChan. intros Hc Hr.
  destruct (reflect_Select s e); [|discriminate].
  rewrite Hc, Hr. intros [= <-]. reflexivity.
Qed.

End Properties.

(** ** The exit classifier *)

(** C2: [GetExitCode] is a function of the phase and the [Code] field alone:
    137 when the phase is Killed, otherwise 124 when it is TimedOut,
    otherwise the raw child [Code]; the [Signaled] flag plays no part. *)
Theorem GetExitCode_by_phase (ex : ExitStatus) :
  GetExitCode ex =
    match typ ex with
    | exitTypeKilled => 137
    | exitTypeTimedOut => 124
    | exitTypeNormal => Code ex
    end
  /\ forall signaled,
       GetExitCode {| Code := Code ex; Signaled := signaled; typ := typ ex |}
       = GetExitCode ex.
Proof.
  split; destruct ex as [c sg []]; reflexivity.
Qed.

(** C10: an exit status that [IsKilled] accepts is accepted by [IsTimedOut]
    too. *)
Theorem IsKilled_IsTimedOut (ex : ExitStatus) :
  IsKilled ex = true -> IsTimedOut ex = true.
Proof.
  unfold IsTimedOut, IsKilled. intros ->. apply orb_true_r.
Qed.

Lemma IsKilled_IsTimedOut_witness :
  IsKilled {| Code := 137; Signaled := true; typ := exitTypeKilled |} = true
  /\ IsTimedOut {| Code := 137; Signaled := true; typ := exitTypeKilled |} = true.
Proof.
  split; [reflexivity|]. apply IsKilled_IsTimedOut. reflexivity.
Defined.

(** ** The signal policy *)

(** C8: with no [Signal] configured the signal of the invocation is the
    default fixed by [init], the interrupt signal on Windows and SIGTERM on
    any other target; a configured [Signal] is used as it is; that signal is
    the one [terminate] delivers. *)
Theorem signal_default_or_configured `{P : Platform} (tio : Timeout) :
  signal tio =
    match Signal tio with
    | Some sig => sig
    | None => if decide (GOOS = "windows") then Interrupt else SIGTERM
    end
  /\ terminate tio = [ActSignal (signal tio) (Foreground tio)].
Proof.
  split; [|reflexivity].
  unfold signal, defaultSignal, init. destruct (Signal tio); [reflexivity|].
  destruct (String.eqb_spec GOOS "windows"); case_decide; congruence.
Qed.

Example signal_on_linux : @signal linux sleep10 = SIGTERM.
Proof. reflexivity. Qed.

Example signal_on_windows : @signal windows sleep10 = Interrupt.
Proof. reflexivity. Qed.

(** ** Spawn failure *)

(** C6: when [cmd.Start] fails, [RunCommand] returns a nil channel and an
    [*Error] holding the code resolved from the failure, nothing but the
    start was attempted (no [reflect.Select], no signal, no send), and [Run]
    returns that error with the zero [ExitStatus]. *)
Theorem spawn_failure `{P : Platform} (tio : Timeout) (w : World) (err : error) :
  start_err w = Some err ->
  let failure := errorTimeout (mkError (ResolveExitCode err) err) in
  RunCommand tio w = (None, Some failure, [ActStart])
  /\ getExitCodeFromErr (Some failure) = ResolveExitCode err
  /\ (forall i, count (is_select i) (RunCommand tio w).2 = 0%nat)
  /\ fst (Run tio w)
     = Some (ExitStatus_zero, EmptyString, EmptyString, Some failure)
  /\ snd (Run tio w) = [ActStart; ActStderr failure].
Proof.
  intros Hs. unfold Run, RunCommand. rewrite Hs. simpl.
  repeat split; reflexivity.
Qed.

Lemma spawn_failure_witness :
  start_err world_no_spawn = Some (errorOther "exec: not found")
  /\ fst (@Run linux sleep10 world_no_spawn)
     = Some (ExitStatus_zero, EmptyString, EmptyString,
             Some (errorTimeout (mkError 127 (errorOther "exec: not found")))).
Proof.
  split; [reflexivity|].
  apply (@spawn_failure linux sleep10 world_no_spawn
           (errorOther "exec: not found")). reflexivity.
Defined.

(** ** The streaming facade *)

(** C7: when both pipes are set up and the channel of [RunCommand] delivers
    [ex], [RunSimple] returns [GetChildExitCode], which is the [Code] field
    whatever the phase, if [preserveStatus] is set, and [GetExitCode]
    otherwise. *)
Theorem RunSimple_preserveStatus `{P : Platform}
    (tio : Timeout) (w : World) (ch : option (list ExitStatus))
    (acts : list Action) (ex : ExitStatus) :
  stdout_pipe_err w = None ->
  stderr_pipe_err w = None ->
  RunCommand tio w = (ch, None, acts) ->
  chan_recv ch = Some ex ->
  fst (RunSimple tio true w) = Some (GetChildExitCode ex)
  /\ GetChildExitCode ex = Code ex
  /\ fst (RunSimple tio false w) = Some (GetExitCode ex).
Proof.
  intros Ho He Hr Hc. unfold RunSimple. rewrite Ho, He, Hr, Hc.
  repeat split; reflexivity.
Qed.

Lemma RunSimple_preserveStatus_witness :
  fst (@RunSimple linux sleep10 true world_escalated) = Some 137
  /\ fst (@RunSimple linux sleep10 false world_escalated) = Some 137
  /\ fst (@RunSimple linux sleep10 true world_signaled) = Some 143
  /\ fst (@RunSimple linux sleep10 false world_signaled) = Some 124.
Proof.
  pose proof (@RunSimple_preserveStatus linux sleep10 world_escalated
                _ _ _ eq_refl eq_refl eq_refl eq_refl) as (H1 & _ & H2).
  pose proof (@RunSimple_preserveStatus linux sleep10 world_signaled
                _ _ _ eq_refl eq_refl eq_refl eq_refl) as (H3 & _ & H4).
  repeat split; assumption.
Defined.

(** ** The escalation loop *)

(** C3: in a run of the loop the timeout case is chosen at most once and
    the kill-after case at most once (a timer channel that was received
    from is never chosen again), so [terminate] is called at most once, and
    [killall] and the direct [Process.Kill] at most once each. *)
Theorem escalation_at_most_once `{P : Platform} (tio : Timeout) (w : World) :
  let acts := acts_of (handleTimeout tio w) in
  (count (is_select 1) acts <= 1)%nat
  /\ (count (is_select 2) acts <= 1)%nat
  /\ (count is_signal acts <= 1)%nat
  /\ (count is_killall acts <= 1)%nat
  /\ (count is_process_kill acts <= 1)%nat.
Proof. exact (acts_at_most_once tio w). Qed.

Example escalated_once :
  @handleTimeout linux sleep10 world_escalated
  = Returned {| Code := 137; Signaled := true; typ := exitTypeKilled |}
      [ActSelect 1; ActSignal SIGTERM false;
       ActSelect 2; ActKillall false; ActProcessKill; ActSelect 0].
Proof. reflexivity. Qed.

Example timeout_not_twice :
  @handleTimeout linux sleep10
    (world_of [select_at 100000000 1 0; select_at 100000001 1 0])
  = Impossible.
Proof. reflexivity. Qed.

(** With [KillAfter] zero, a run that starts by handling the timeout. *)
Lemma signaled_once_without_kill `{P : Platform}
    (tio : Timeout) (w : World) (e : Selected) (rest : list Selected) :
  KillAfter tio = 0 ->
  selects w = e :: rest ->
  chosen e = 1%nat ->
  feasible (handleTimeout tio w) = true ->
  count is_signal (acts_of (handleTimeout tio w)) = 1%nat
  /\ (rest = [] ->
      exists s, handleTimeout tio w = Waiting s
        /\ typ (l_ex s) = exitTypeTimedOut
        /\ l_acts s = [ActSelect 1; ActSignal (signal tio) (Foreground tio)])
  /\ (forall e2 rest', rest = e2 :: rest' ->
      chosen e2 = 0%nat
      /\ exists ex,
           handleTimeout tio w
           = Returned ex [ActSelect 1; ActSignal (signal tio) (Foreground tio);
                          ActSelect 0]
           /\ typ ex = exitTypeTimedOut /\ GetExitCode ex = 124).
Proof.
  intros Hk0 Hsel Hc. unfold handleTimeout.
  destruct (clock_ok tio w); [|discriminate].
  rewrite Hsel. simpl.
  destruct (iteration tio (loop_entry tio w) e) as [[s1|[ex acts]]|] eqn:Hit;
    [| |discriminate].
  - pose proof (iteration_turn _ _ _ _ (inv_armed _ (inv_entry tio w)) Hit) as Ht.
    inversion Ht as [|? _ _ Ha1 Hnew Hother Hex Hacts|? Hch _ _ _ _ _ _];
      subst; [|congruence].
    simpl in Hacts.
    assert (H2 : spent_at 2 (l_cases s1) = None).
    { rewrite Hother. unfold loop_entry, cases_of. rewrite Hk0. reflexivity. }
    destruct rest as [|e2 rest']; simpl.
    + intros _. split; [rewrite Hacts; reflexivity|].
      split; [|intros ? ? [=]].
      intros _. exists s1. split; [reflexivity|].
      split; [rewrite Hex; reflexivity|exact Hacts].
    + destruct (iteration tio s1 e2) as [[s2|[ex acts]]|] eqn:Hit2;
        [| |discriminate];
        pose proof (iteration_turn _ _ _ _ Ha1 Hit2) as Ht2.
      * exfalso. inversion Ht2; subst; congruence.
      * inversion Ht2 as [? Hch2 Htyp _| |]; subst.
        intros _. rewrite Hacts. split; [reflexivity|].
        split; [intros [=]|].
        intros e2' rest'' [= <- <-]. split; [exact Hch2|].
        exists ex. split; [reflexivity|].
        assert (Hp : typ ex = exitTypeTimedOut)
          by (rewrite Htyp, Hex; reflexivity).
        split; [exact Hp|].
        unfold GetExitCode, IsKilled, IsTimedOut. rewrite Hp. reflexivity.
  - pose proof (iteration_turn _ _ _ _ (inv_armed _ (inv_entry tio w)) Hit) as Ht.
    inversion Ht; subst; congruence.
Qed.

(** A feasible run in which the process-exit case is selected returns, on
    that case. *)
Lemma returns_at_exit `{P : Platform} (tio : Timeout) (w : World) :
  feasible (handleTimeout tio w) = true ->
  Exists (fun e => chosen e = 0%nat) (selects w) ->
  exists ex acts,
    handleTimeout tio w = Returned ex acts /\ last acts = Some (ActSelect 0).
Proof.
  unfold handleTimeout. destruct (clock_ok tio w); [|discriminate].
  intros Hf Hex.
  destruct (loop_returns tio _ _ Hf Hex) as (ex & acts & Hr).
  destruct (loop_final tio _ _ (inv_entry tio w) Hf) as (s' & _ & _ & _ & Hout).
  rewrite Hr in Hout |- *. destruct Hout as [-> _].
  eexists _, _. split; [reflexivity|apply last_snoc].
Qed.

(** C4: with [KillAfter] zero the slice has no kill-after case: that case
    is never chosen, neither [killall] nor [Process.Kill] is called and no
    phase is Killed.  When the timeout case is handled the signal is
    delivered, exactly once; from then on [reflect.Select] can return the
    process-exit case only, so the loop waits, in phase TimedOut, until that
    case is selected, and then returns a status in phase TimedOut. *)
Theorem no_kill_without_KillAfter `{P : Platform} (tio : Timeout) (w : World) :
  KillAfter tio = 0 ->
  let o := handleTimeout tio w in
  length (cases_of tio w) = 2%nat
  /\ count (is_select 2) (acts_of o) = 0%nat
  /\ count is_killall (acts_of o) = 0%nat
  /\ count is_process_kill (acts_of o) = 0%nat
  /\ (count is_signal (acts_of o) <= 1)%nat
  /\ Forall (fun t => t <> exitTypeKilled) (phases tio w)
  /\ (forall ex acts, o = Returned ex acts -> IsKilled ex = false)
  /\ (forall s, s ∈ states tio (loop_entry tio w) (selects w) ->
      typ (l_ex s) = exitTypeTimedOut ->
      forall e r, iteration tio s e = Some r -> chosen e = 0%nat)
  /\ (forall e rest,
      selects w = e :: rest -> chosen e = 1%nat -> feasible o = true ->
      count is_signal (acts_of o) = 1%nat
      /\ (rest = [] ->
          exists s, o = Waiting s
            /\ typ (l_ex s) = exitTypeTimedOut
            /\ l_acts s = [ActSelect 1; ActSignal (signal tio) (Foreground tio)])
      /\ (forall e2 rest', rest = e2 :: rest' ->
          chosen e2 = 0%nat
          /\ exists ex,
               o = Returned ex [ActSelect 1;
                                ActSignal (signal tio) (Foreground tio);
                                ActSelect 0]
               /\ typ ex = exitTypeTimedOut /\ GetExitCode ex = 124))
  /\ (feasible o = true ->
      Exists (fun e => chosen e = 0%nat) (selects w) ->
      exists ex acts, o = Returned ex acts /\ last acts = Some (ActSelect 0)).
Proof.
  intros Hk0. simpl.
  set (Q := fun s : Loop => spent_at 2 (l_cases s) = None).
  assert (Hq0 : Q (loop_entry tio w)).
  { unfold Q, loop_entry, cases_of. rewrite Hk0. reflexivity. }
  assert (Hstep : forall s e s', inv s -> Q s -> turn tio s e (inl s') -> Q s').
  { unfold Q. intros s e s' _ Hq Ht.
    inversion Ht as [|? _ _ _ _ Hsame _ _|? _ Hold _ _ _ _ _]; subst;
      congruence. }
  pose proof (states_preserve Q tio Hstep (selects w) _ (inv_entry tio w) Hq0)
    as HQ.
  pose proof (proj1 (loop_outcome tio (selects w) _ (inv_entry tio w))) as HI.
  rewrite Forall_forall in HQ, HI.
  assert (Hnk : forall s, inv s -> Q s -> typ (l_ex s) <> exitTypeKilled).
  { intros s Hi Hq Ht. apply (inv_killed _ Hi) in Ht. unfold Q in Hq. congruence. }
  assert (Hacts : count (is_select 2) (acts_of (handleTimeout tio w)) = 0%nat
                  /\ count is_killall (acts_of (handleTimeout tio w)) = 0%nat
                  /\ count is_process_kill (acts_of (handleTimeout tio w)) = 0%nat
                  /\ (forall ex acts, handleTimeout tio w = Returned ex acts ->
                      IsKilled ex = false)).
  { unfold handleTimeout.
    destruct (clock_ok tio w);
      [|repeat split; try reflexivity; discriminate].
    destruct (feasible (loop tio (loop_entry tio w) (selects w))) eqn:Hf.
    - destruct (loop_final tio _ _ (inv_entry tio w) Hf)
        as (s' & Hin & _ & Hi & Hout).
      assert (Hq : Q s').
      { apply elem_of_cons in Hin. destruct Hin as [->|Hin]; auto. }
      destruct Hi as [_ _ _ _ H2 Hk Hp _ _ _ _ _ Hkd]. unfold Q in Hq.
      rewrite Hq in H2, Hk, Hp, Hkd. simpl in *.
      destruct (loop tio (loop_entry tio w) (selects w)) as [ex acts|s2|];
        [destruct Hout as [-> Htyp]|subst s2|contradiction]; simpl;
        rewrite ?count_app, ?H2, ?Hk, ?Hp; simpl;
        repeat split; try reflexivity; try discriminate.
      intros ex' acts' [= -> _]. unfold IsKilled. rewrite Htyp.
      destruct (typ (l_ex s')); try reflexivity. discriminate (Hkd eq_refl).
    - destruct (loop tio (loop_entry tio w) (selects w)); try discriminate.
      repeat split; try reflexivity; discriminate. }
  destruct Hacts as (A2 & Ak & Ap & Ar).
  split; [unfold cases_of; rewrite Hk0; reflexivity|].
  repeat (split; [assumption|]).
  split; [apply acts_at_most_once|].
  split; [|split; [exact Ar|split; [|split]]].
  - unfold phases. constructor; [discriminate|].
    apply Forall_fmap, Forall_forall. intros s Hs. apply Hnk; auto.
  - intros s Hs Htyp e r Hit.
    pose proof (iteration_turn _ _ _ _ (inv_armed _ (HI s Hs)) Hit) as Ht.
    pose proof (inv_timedout _ (HI s Hs) Htyp) as H1.
    pose proof (HQ s Hs) as H2. unfold Q in H2.
    inversion Ht; subst; [assumption|congruence|congruence].
  - intros e rest Hsel Hc Hf.
    exact (signaled_once_without_kill tio w e rest Hk0 Hsel Hc Hf).
  - apply returns_at_exit.
Qed.

Lemma no_kill_without_KillAfter_witness :
  KillAfter sleep10_no_kill = 0
  /\ count is_killall
       (acts_of (@handleTimeout linux sleep10_no_kill world_signaled)) = 0%nat
  /\ Forall (fun t => t <> exitTypeKilled)
       (@phases linux sleep10_no_kill world_signaled)
  /\ count is_signal
       (acts_of (@handleTimeout linux sleep10_no_kill world_signaled)) = 1%nat
  /\ exists ex,
       @handleTimeout linux sleep10_no_kill world_signaled
       = Returned ex [ActSelect 1; ActSignal SIGTERM false; ActSelect 0]
       /\ typ ex = exitTypeTimedOut /\ GetExitCode ex = 124.
Proof.
  pose proof (@no_kill_without_KillAfter linux sleep10_no_kill world_signaled
                eq_refl) as (_ & _ & Hk & _ & _ & Hp & _ & _ & Hsig & _).
  destruct (Hsig (select_at 100000000 1 0) [select_at 100000500 0 15]
              eq_refl eq_refl eq_refl) as (Hone & _ & Hexit).
  destruct (Hexit _ _ eq_refl) as [_ Hret].
  split; [reflexivity|]. repeat (split; [assumption|]). exact Hret.
Defined.

Example no_kill_blocks :
  @handleTimeout linux sleep10_no_kill (world_of [select_at 100000000 1 0])
  = Waiting
      {| l_ex := {| Code := 0; Signaled := false; typ := exitTypeTimedOut |};
         l_cases := [CaseExit; CaseAfter 100000000 true];
         l_clock := 100000000;
         l_acts := [ActSelect 1; ActSignal SIGTERM false] |}.
Proof. reflexivity. Qed.

Example no_kill_case_absent :
  @handleTimeout linux sleep10_no_kill
    (world_of [select_at 100000000 1 0; select_at 200000000 2 0])
  = Impossible.
Proof. reflexivity. Qed.

(** C5: after a successful start [RunCommand] returns a channel and no
    error; at most one [ExitStatus] is ever sent on the channel; exactly one
    is sent as soon as [reflect.Select] returns the process-exit case,
    however many escalation events came before; the loop returns on that
    case and on no other, and the value sent is the one it returned. *)
Theorem one_ExitStatus_per_invocation `{P : Platform} (tio : Timeout) (w : World) :
  start_err w = None ->
  exists ch acts,
    RunCommand tio w = (Some ch, None, acts)
    /\ (length ch <= 1)%nat
    /\ count is_send acts = length ch
    /\ (feasible (handleTimeout tio w) = true ->
        Exists (fun e => chosen e = 0%nat) (selects w) ->
        length ch = 1%nat)
    /\ (forall ex a, handleTimeout tio w = Returned ex a ->
        ch = [ex] /\ count (is_select 0) a = 1%nat /\ last a = Some (ActSelect 0))
    /\ (forall s, handleTimeout tio w = Waiting s ->
        ch = [] /\ count (is_select 0) (l_acts s) = 0%nat).
Proof.
  intros Hs. unfold RunCommand. rewrite Hs.
  eexists _, _. split; [reflexivity|].
  assert (Hsent : forall l, sent l = [] <-> count is_send l = 0%nat).
  { induction l as [|[] l IH]; simpl; try exact IH; [tauto|split; discriminate]. }
  assert (Hfin : forall ex a, handleTimeout tio w = Returned ex a ->
            count is_send a = 0%nat /\ count (is_select 0) a = 1%nat
            /\ last a = Some (ActSelect 0)).
  { unfold handleTimeout. intros ex a.
    destruct (clock_ok tio w); [|discriminate].
    intros Hr.
    assert (Hf : feasible (loop tio (loop_entry tio w) (selects w)) = true)
      by (rewrite Hr; reflexivity).
    destruct (loop_final tio _ _ (inv_entry tio w) Hf)
      as (s' & _ & _ & Hi & Hout).
    rewrite Hr in Hout. destruct Hout as [-> _].
    rewrite !count_app, (inv_send _ Hi), (inv_select0 _ Hi), last_snoc.
    repeat split. }
  assert (Hwait : forall s, handleTimeout tio w = Waiting s ->
            count is_send (l_acts s) = 0%nat
            /\ count (is_select 0) (l_acts s) = 0%nat).
  { unfold handleTimeout. intros s.
    destruct (clock_ok tio w); [|discriminate].
    intros Hr.
    assert (Hf : feasible (loop tio (loop_entry tio w) (selects w)) = true)
      by (rewrite Hr; reflexivity).
    destruct (loop_final tio _ _ (inv_entry tio w) Hf)
      as (s' & _ & _ & Hi & Hout).
    rewrite Hr in Hout. subst s'.
    split; [apply inv_send|apply inv_select0]; exact Hi. }
  assert (Hret : forall ex a, handleTimeout tio w = Returned ex a ->
            sent (goroutine tio w) = [ex]).
  { intros ex a Hr. unfold goroutine. rewrite Hr.
    destruct (Hfin ex a Hr) as [H0 _]. apply Hsent in H0.
    unfold sent in *. rewrite omap_app, H0. reflexivity. }
  assert (Hgo : count is_send (ActStart :: goroutine tio w)
                = length (sent (goroutine tio w))).
  { simpl. unfold goroutine.
    destruct (handleTimeout tio w) as [ex a|s|] eqn:Hr; [| |reflexivity].
    - destruct (Hfin ex a eq_refl) as [H0 _]. pose proof (proj2 (Hsent a) H0) as Hn.
      unfold sent in *. rewrite omap_app, Hn, count_app, H0. reflexivity.
    - destruct (Hwait s eq_refl) as [H0 _]. rewrite (proj2 (Hsent _) H0), H0.
      reflexivity. }
  split; [|split; [exact Hgo|split; [|split]]].
  - unfold goroutine.
    destruct (handleTimeout tio w) as [ex a|s|] eqn:Hr; [| |simpl; lia].
    + pose proof (Hret ex a eq_refl) as Hone. unfold goroutine in Hone.
      rewrite Hr in Hone. rewrite Hone. simpl. lia.
    + destruct (Hwait s eq_refl) as [H0 _]. rewrite (proj2 (Hsent _) H0). simpl. lia.
  - intros Hf Hex.
    assert (Hr : exists ex a, handleTimeout tio w = Returned ex a).
    { unfold handleTimeout in Hf |- *.
      destruct (clock_ok tio w); [|discriminate].
      apply loop_returns; assumption. }
    destruct Hr as (ex & a & Hr). rewrite (Hret ex a Hr). reflexivity.
  - intros ex a Hr. split; [apply (Hret ex a Hr)|apply (Hfin ex a Hr)].
  - intros s Hr. destruct (Hwait s Hr) as [H0 H1]. split; [|exact H1].
    unfold goroutine. rewrite Hr. apply Hsent, H0.
Qed.

Lemma one_ExitStatus_per_invocation_witness :
  start_err world_escalated = None
  /\ exists acts,
       @RunCommand linux sleep10 world_escalated
       = (Some [{| Code := 137; Signaled := true; typ := exitTypeKilled |}],
          None, acts).
Proof.
  split; [reflexivity|].
  destruct (@one_ExitStatus_per_invocation linux sleep10 world_escalated eq_refl)
    as (ch & acts & Hrun & _ & _ & _ & Hret & _).
  destruct (Hret _ _ eq_refl) as [-> _].
  exists acts. exact Hrun.
Defined.

(** C1: the phase is meant to move only forward through Normal, TimedOut
    and Killed, and nothing to reset it once it is Killed.  The loop breaks
    this: with one nanosecond for each duration and a first [reflect.Select]
    that returns when both timers have expired and takes the kill-after
    case, the still pending timeout case is taken next; the phase goes from
    Killed back to TimedOut, the signal follows the kill, and the status
    returned reports 124, not killed, for a child that [killall] and
    [Process.Kill] were called on. *)
Lemma phase_reset_after_kill :
  feasible (@handleTimeout linux sleep10_short world_late) = true
  /\ @phases linux sleep10_short world_late
     = [exitTypeNormal; exitTypeKilled; exitTypeTimedOut]
  /\ ~ @phase_only_forward linux sleep10_short world_late
  /\ ~ @only_exit_after_kill linux sleep10_short world_late
  /\ @handleTimeout linux sleep10_short world_late
     = Returned {| Code := 137; Signaled := true; typ := exitTypeTimedOut |}
         [ActSelect 2; ActKillall false; ActProcessKill;
          ActSelect 1; ActSignal SIGTERM false; ActSelect 0].
Proof.
  split; [reflexivity|]. split; [reflexivity|].
  split; [unfold phase_only_forward; vm_compute; discriminate|].
  split; [|reflexivity].
  intros H.
  set (s := {| l_ex := {| Code := 0; Signaled := false; typ := exitTypeKilled |};
               l_cases := [CaseExit; CaseAfter 1 false; CaseAfter 2 true];
               l_clock := 2;
               l_acts := [ActSelect 2; ActKillall false; ActProcessKill] |}).
  assert (Hin : s ∈ @states linux sleep10_short
                       (@loop_entry linux sleep10_short world_late)
                       (@selects linux world_late)) by (vm_compute; left).
  specialize (H s Hin eq_refl (select_at 2 1 0) _ eq_refl).
  discriminate H.
Qed.

(** X15: the status returned carries the last phase recorded, in every
    run, whatever the order in which the timers were taken. *)
Theorem returned_phase_is_last `{P : Platform}
    (tio : Timeout) (w : World) (ex : ExitStatus) (acts : list Action) :
  handleTimeout tio w = Returned ex acts ->
  last (phases tio w) = Some (typ ex).
Proof.
  unfold handleTimeout, phases. destruct (clock_ok tio w); [|discriminate].
  intros Hr.
  assert (Hf : feasible (loop tio (loop_entry tio w) (selects w)) = true)
    by (rewrite Hr; reflexivity).
  destruct (loop_final tio _ _ (inv_entry tio w) Hf) as (s' & _ & Hl & _ & Hout).
  rewrite Hr in Hout. destruct Hout as [_ ->].
  change exitTypeNormal with (typ (l_ex (loop_entry tio w))).
  change (last ((fun s => typ (l_ex s)) <$>
                (loop_entry tio w :: states tio (loop_entry tio w) (selects w)))
          = Some (typ (l_ex s'))).
  rewrite fmap_last, Hl. reflexivity.
Qed.

Lemma returned_phase_is_last_witness :
  last (@phases linux sleep10_short world_late) = Some exitTypeTimedOut.
Proof.
  exact (@returned_phase_is_last linux sleep10_short world_late _ _ eq_refl).
Defined.

(** X16: in a run where the kill-after case is chosen only after the
    timeout case, the phase moves only forward through Normal, TimedOut and
    Killed, and from a state in phase Killed both timers are spent, so
    [reflect.Select], which still waits on every case, can return the
    process-exit case only. *)
Theorem phase_forward_in_order `{P : Platform} (tio : Timeout) (w : World) :
  feasible (handleTimeout tio w) = true ->
  timeout_first false (acts_of (handleTimeout tio w)) = true ->
  phase_only_forward tio w /\ only_exit_after_kill tio w.
Proof.
  unfold handleTimeout, phase_only_forward, only_exit_after_kill, phases.
  destruct (clock_ok tio w); [|discriminate].
  intros Hf Ho.
  pose proof (in_order_state tio (selects w) (loop_entry tio w)) as Hst.
  specialize (fun s' => Hst s' (inv_entry tio w) Hf Ho).
  split.
  - change exitTypeNormal with (typ (l_ex (loop_entry tio w))).
    apply forward_states; [apply inv_entry|].
    intros s' Hin Hk. destruct (Hst s' Hin) as [Hi H21].
    apply H21, (inv_killed _ Hi), Hk.
  - intros s Hin Hk e r Hit.
    destruct (Hst s (list_elem_of_further _ _ _ Hin)) as [Hi H21].
    pose proof (inv_killed _ Hi Hk) as H2. pose proof (H21 H2) as H1.
    pose proof (iteration_turn _ _ _ _ (inv_armed _ Hi) Hit) as Ht.
    inversion Ht; subst; [assumption|congruence|congruence].
Qed.

Lemma phase_forward_in_order_witness :
  feasible (@handleTimeout linux sleep10 world_escalated) = true
  /\ timeout_first false
       (acts_of (@handleTimeout linux sleep10 world_escalated)) = true
  /\ @phase_only_forward linux sleep10 world_escalated
  /\ @only_exit_after_kill linux sleep10 world_escalated.
Proof.
  split; [reflexivity|]. split; [reflexivity|].
  exact (@phase_forward_in_order linux sleep10 world_escalated
           eq_refl eq_refl).
Defined.

(** ** Further properties of the loop and the facades *)

Section MoreProperties.

Context `{P : Platform}.

Lemma iteration_exit_result tio s e r :
  chosen e = 0%nat ->
  iteration tio s e = Some r ->
  r = inr (match recv e with
           | RecvWaitStatus st =>
               {| Code := WaitStatusToExitCode st;
                  Signaled := WaitStatus_Signaled st;
                  typ := typ (l_ex s) |}
           | RecvOther => l_ex s
           end, l_acts s ++ [ActSelect 0]).
Proof.
  unfold iteration, body. intros Hc.
  destruct (reflect_Select s e); [|discriminate].
  rewrite Hc. intros [= <-]. reflexivity.
Qed.

(** A feasible run up to the first selection of the exit case. *)
Lemma loop_exit_after tio pre e post : forall s,
  inv s ->
  Forall (fun e' => chosen e' <> 0%nat) pre ->
  chosen e = 0%nat ->
  feasible (loop tio s (pre ++ e :: post)) = true ->
  exists s',
    inv s'
    /\ typ (l_ex s') = fold_left phase_set (map chosen pre) (typ (l_ex s))
    /\ loop tio s (pre ++ e :: post)
       = Returned (match recv e with
                   | RecvWaitStatus st =>
                       {| Code := WaitStatusToExitCode st;
                          Signaled := WaitStatus_Signaled st;
                          typ := typ (l_ex s') |}
                   | RecvOther => l_ex s'
                   end) (l_acts s' ++ [ActSelect 0]).
Proof.
  induction pre as [|e1 pre IH]; intros s Hi Hpre Hc Hf; simpl in *.
  - destruct (iteration tio s e) as [r|] eqn:Hit; [|discriminate].
    rewrite (iteration_exit_result _ _ _ _ Hc Hit).
    exists s. split; [exact Hi|]. split; reflexivity.
  - inversion Hpre as [|? ? Hc1 Hpre']; subst.
    destruct (iteration tio s e1) as [[s1|[ex acts]]|] eqn:Hit;
      [| |discriminate].
    + pose proof (iteration_turn _ _ _ _ (inv_armed _ Hi) Hit) as Ht.
      destruct (IH s1 (inv_turn _ _ _ _ Hi Ht) Hpre' Hc Hf)
        as (s' & Hi' & Htyp & Hret).
      exists s'. split; [exact Hi'|]. split; [|exact Hret].
      rewrite Htyp.
      inversion Ht as [|? Hch _ _ _ _ Hex _|? Hch _ _ _ _ Hex _]; subst;
        rewrite Hch, Hex; reflexivity.
    + pose proof (iteration_turn _ _ _ _ (inv_armed _ Hi) Hit) as Ht.
      inversion Ht; subst; contradiction.
Qed.

Lemma handleTimeout_exit_after tio w pre e post :
  selects w = pre ++ e :: post ->
  Forall (fun e' => chosen e' <> 0%nat) pre ->
  chosen e = 0%nat ->
  feasible (handleTimeout tio w) = true ->
  exists s',
    inv s'
    /\ typ (l_ex s') = fold_left phase_set (map chosen pre) exitTypeNormal
    /\ handleTimeout tio w
       = Returned (match recv e with
                   | RecvWaitStatus st =>
                       {| Code := WaitStatusToExitCode st;
                          Signaled := WaitStatus_Signaled st;
                          typ := typ (l_ex s') |}
                   | RecvOther => l_ex s'
                   end) (l_acts s' ++ [ActSelect 0]).
Proof.
  intros Hsel Hpre Hc. unfold handleTimeout.
  destruct (clock_ok tio w); [|discriminate].
  rewrite Hsel. intros Hf.
  apply (loop_exit_after tio pre e post _ (inv_entry tio w) Hpre Hc Hf).
Qed.

(** The state the loop was in when it returned. *)
Lemma handleTimeout_returned tio w ex acts :
  handleTimeout tio w = Returned ex acts ->
  exists s', inv s' /\ acts = l_acts s' ++ [ActSelect 0]
             /\ typ ex = typ (l_ex s').
Proof.
  unfold handleTimeout. destruct (clock_ok tio w); [|discriminate].
  intros Hr.
  assert (Hf : feasible (loop tio (loop_entry tio w) (selects w)) = true)
    by (rewrite Hr; reflexivity).
  destruct (loop_final tio _ _ (inv_entry tio w) Hf) as (s' & _ & _ & Hi & Hout).
  rewrite Hr in Hout. destruct Hout as [Hacts Htyp]. eauto.
Qed.

(** The state of any outcome that is not [Impossible]. *)
Lemma handleTimeout_state tio w :
  feasible (handleTimeout tio w) = true ->
  exists s', s' ∈ loop_entry tio w :: states tio (loop_entry tio w) (selects w)
    /\ inv s'
    /\ (acts_of (handleTimeout tio w) = l_acts s'
        \/ acts_of (handleTimeout tio w) = l_acts s' ++ [ActSelect 0]).
Proof.
  unfold handleTimeout. destruct (clock_ok tio w); [|discriminate].
  intros Hf.
  destruct (loop_final tio _ _ (inv_entry tio w) Hf) as (s' & Hin & _ & Hi & Hout).
  exists s'. split; [exact Hin|]. split; [exact Hi|].
  destruct (loop tio (loop_entry tio w) (selects w)); simpl.
  - right. apply Hout.
  - left. congruence.
  - contradiction.
Qed.

Lemma sent_none acts : count is_send acts = 0%nat -> sent acts = [].
Proof.
  induction acts as [|[] acts IH]; simpl; try exact IH;
    [reflexivity|discriminate].
Qed.

(** What the channel of [RunCommand] delivers, read off the loop. *)
Lemma chan_recv_goroutine tio w :
  chan_recv (Some (sent (goroutine tio w)))
  = match handleTimeout tio w with
    | Returned ex _ => Some ex
    | _ => None
    end.
Proof.
  unfold goroutine.
  destruct (handleTimeout tio w) as [ex acts|s|] eqn:Hr; [| |reflexivity].
  - destruct (handleTimeout_returned _ _ _ _ Hr) as (s' & Hi & -> & _).
    unfold sent. rewrite !omap_app.
    fold (sent (l_acts s')). rewrite (sent_none _ (inv_send _ Hi)).
    reflexivity.
  - assert (Hf : feasible (handleTimeout tio w) = true) by (rewrite Hr; reflexivity).
    destruct (handleTimeout_state tio w Hf) as (s' & _ & Hi & Hacts).
    rewrite Hr in Hacts. simpl in Hacts.
    destruct Hacts as [Ha|Ha].
    + rewrite Ha, (sent_none _ (inv_send _ Hi)). reflexivity.
    + assert (Hs : count is_send (l_acts s) = 0%nat)
        by (rewrite Ha, count_app, (inv_send _ Hi); reflexivity).
      rewrite (sent_none _ Hs). reflexivity.
Qed.

End MoreProperties.

(** X1: whatever escalation came before, the status returned on the
    process-exit event carries the exit code and the signaled flag decoded
    from the wait status received, and [GetChildExitCode] gives that code. *)
Theorem exit_decodes_wait_status `{P : Platform}
    (tio : Timeout) (w : World) (pre post : list Selected) (e : Selected)
    (st : WaitStatus) :
  selects w = pre ++ e :: post ->
  Forall (fun e' => chosen e' <> 0%nat) pre ->
  chosen e = 0%nat ->
  recv e = RecvWaitStatus st ->
  feasible (handleTimeout tio w) = true ->
  exists ex acts,
    handleTimeout tio w = Returned ex acts
    /\ Code ex = WaitStatusToExitCode st
    /\ Signaled ex = WaitStatus_Signaled st
    /\ GetChildExitCode ex = WaitStatusToExitCode st.
Proof.
  intros Hsel Hpre Hc Hr Hf.
  destruct (handleTimeout_exit_after tio w pre e post Hsel Hpre Hc Hf)
    as (s' & _ & _ & Hret).
  rewrite Hr in Hret. eexists _, _. split; [exact Hret|].
  repeat split.
Qed.

Lemma exit_decodes_wait_status_witness :
  exists ex acts,
    @handleTimeout linux sleep10 world_signaled = Returned ex acts
    /\ Code ex = 143 /\ Signaled ex = true /\ GetChildExitCode ex = 143.
Proof.
  apply (@exit_decodes_wait_status linux sleep10 world_signaled
           [select_at 100000000 1 0] [] (select_at 100000500 0 15) 15);
    try reflexivity.
  repeat constructor. discriminate.
Defined.

(** X2: the phase of the status returned is the one set by the last
    escalation case handled before the process-exit case, Normal when there
    was none; so a child that exits before any timer is reported with its
    own code. *)
Theorem phase_of_last_escalation `{P : Platform}
    (tio : Timeout) (w : World) (pre post : list Selected) (e : Selected) :
  selects w = pre ++ e :: post ->
  Forall (fun e' => chosen e' <> 0%nat) pre ->
  chosen e = 0%nat ->
  feasible (handleTimeout tio w) = true ->
  exists ex acts,
    handleTimeout tio w = Returned ex acts
    /\ typ ex = fold_left phase_set (map chosen pre) exitTypeNormal
    /\ (pre = [] -> GetExitCode ex = Code ex).
Proof.
  intros Hsel Hpre Hc Hf.
  destruct (handleTimeout_exit_after tio w pre e post Hsel Hpre Hc Hf)
    as (s' & _ & Htyp & Hret).
  eexists _, _. split; [exact Hret|].
  assert (Ht : typ (match recv e with
                    | RecvWaitStatus st =>
                        {| Code := WaitStatusToExitCode st;
                           Signaled := WaitStatus_Signaled st;
                           typ := typ (l_ex s') |}
                    | RecvOther => l_ex s'
                    end)
               = fold_left phase_set (map chosen pre) exitTypeNormal)
    by (destruct (recv e); exact Htyp).
  split; [exact Ht|].
  intros ->. simpl in Ht. unfold GetExitCode, IsKilled, IsTimedOut.
  rewrite Ht. reflexivity.
Qed.

Lemma phase_of_last_escalation_witness :
  exists ex acts,
    @handleTimeout linux sleep10 world_signaled = Returned ex acts
    /\ typ ex = exitTypeTimedOut.
Proof.
  destruct (@phase_of_last_escalation linux sleep10 world_signaled
              [select_at 100000000 1 0] [] (select_at 100000500 0 15))
    as (ex & acts & Hr & Ht & _); try reflexivity.
  - repeat constructor. discriminate.
  - exists ex, acts. split; assumption.
Defined.

(** X3: the status returned is reported as timed out exactly when the loop
    delivered the signal or issued a kill; a status in phase Normal means
    that the child was left alone. *)
Theorem timed_out_iff_escalated `{P : Platform}
    (tio : Timeout) (w : World) (ex : ExitStatus) (acts : list Action) :
  handleTimeout tio w = Returned ex acts ->
  (IsTimedOut ex = false <->
   count is_signal acts = 0%nat /\ count is_killall acts = 0%nat
   /\ count is_process_kill acts = 0%nat).
Proof.
  intros Hr.
  destruct (handleTimeout_returned _ _ _ _ Hr) as (s' & Hi & -> & Htyp).
  destruct Hi as [_ _ _ Hs _ Hk Hp _ _ _ Hn Ht Hkd].
  rewrite !count_app, Hs, Hk, Hp. simpl. rewrite !Nat.add_0_r.
  unfold IsTimedOut. rewrite Htyp.
  destruct (typ (l_ex s')) eqn:Hphase; simpl.
  - destruct (Hn eq_refl) as [-> ->]. tauto.
  - rewrite (Ht eq_refl). simpl. split; [discriminate|intros [? _]; discriminate].
  - rewrite (Hkd eq_refl). simpl.
    split; [discriminate|intros (_ & ? & _); discriminate].
Qed.

Lemma timed_out_iff_escalated_witness :
  IsTimedOut {| Code := 3; Signaled := false; typ := exitTypeNormal |} = false
  <-> count is_signal [ActSelect 0] = 0%nat
      /\ count is_killall [ActSelect 0] = 0%nat
      /\ count is_process_kill [ActSelect 0] = 0%nat.
Proof.
  apply (@timed_out_iff_escalated linux sleep10 world_quick). reflexivity.
Defined.

(** X4: a status in phase TimedOut is returned only after the signal was
    delivered, once; a status in phase Killed only after [killall] and the
    direct [Process.Kill] were called, once each. *)
Theorem phase_backed_by_action `{P : Platform}
    (tio : Timeout) (w : World) (ex : ExitStatus) (acts : list Action) :
  handleTimeout tio w = Returned ex acts ->
  (typ ex = exitTypeTimedOut -> count is_signal acts = 1%nat)
  /\ (IsKilled ex = true ->
      count is_killall acts = 1%nat /\ count is_process_kill acts = 1%nat).
Proof.
  intros Hr.
  destruct (handleTimeout_returned _ _ _ _ Hr) as (s' & Hi & -> & Htyp).
  destruct Hi as [_ _ _ Hs _ Hk Hp _ _ _ _ Ht Hkd].
  rewrite !count_app, Hs, Hk, Hp. simpl. rewrite !Nat.add_0_r.
  rewrite Htyp. split.
  - intros H. rewrite (Ht H). reflexivity.
  - unfold IsKilled. rewrite Htyp.
    destruct (typ (l_ex s')); try discriminate.
    intros _. rewrite (Hkd eq_refl). split; reflexivity.
Qed.

Lemma phase_backed_by_action_witness :
  count is_killall
    [ActSelect 1; ActSignal SIGTERM false;
     ActSelect 2; ActKillall false; ActProcessKill; ActSelect 0] = 1%nat
  /\ count is_process_kill
    [ActSelect 1; ActSignal SIGTERM false;
     ActSelect 2; ActKillall false; ActProcessKill; ActSelect 0] = 1%nat.
Proof.
  apply (@phase_backed_by_action linux sleep10 world_escalated _ _ eq_refl).
  reflexivity.
Defined.

(** X5: in every run the signal was delivered as many times as the timeout
    case was handled, and [killall] and the direct [Process.Kill] were each
    called as many times as the kill-after case was handled: the direct kill
    always comes with the group kill. *)
Theorem actions_follow_selections `{P : Platform} (tio : Timeout) (w : World) :
  let acts := acts_of (handleTimeout tio w) in
  count is_signal acts = count (is_select 1) acts
  /\ count is_killall acts = count (is_select 2) acts
  /\ count is_process_kill acts = count is_killall acts.
Proof.
  simpl. destruct (feasible (handleTimeout tio w)) eqn:Hf.
  - destruct (handleTimeout_state tio w Hf) as (s' & _ & Hi & [->| ->]);
      destruct Hi as [_ _ H1 Hs H2 Hk Hp _ _ _ _ _ _];
      rewrite ?count_app, H1, Hs, H2, Hk, Hp; simpl; auto.
  - destruct (handleTimeout tio w); try discriminate. simpl. auto.
Qed.

(** X6: [Run] returns an error exactly when [cmd.Start] fails; after a
    successful start it returns the very status the loop returned, with
    what the child wrote and a nil error, and it does not return as long as
    the loop has not. *)
Theorem Run_by_loop `{P : Platform} (tio : Timeout) (w : World) :
  fst (Run tio w) =
    match start_err w with
    | Some err =>
        Some (ExitStatus_zero, EmptyString, EmptyString,
              Some (errorTimeout (mkError (ResolveExitCode err) err)))
    | None =>
        match handleTimeout tio w with
        | Returned ex _ => Some (ex, child_stdout w, child_stderr w, None)
        | _ => None
        end
    end.
Proof.
  unfold Run, RunCommand. destruct (start_err w); [reflexivity|].
  rewrite chan_recv_goroutine.
  destruct (handleTimeout tio w); reflexivity.
Qed.

Example Run_escalated :
  fst (@Run linux sleep10 world_escalated)
  = Some ({| Code := 137; Signaled := true; typ := exitTypeKilled |},
          "out", "err", None).
Proof. reflexivity. Qed.

(** X7: once its two pipes are set up, [RunSimple] returns the code that
    [status_code] derives from the result of [Run] in the same
    circumstances: the exit code of the error, else the raw or the
    escalation-aware code of the status; and it blocks when [Run] does. *)
Theorem RunSimple_agrees_with_Run `{P : Platform}
    (tio : Timeout) (preserveStatus : bool) (w : World) :
  stdout_pipe_err w = None ->
  stderr_pipe_err w = None ->
  fst (RunSimple tio preserveStatus w)
  = status_code preserveStatus <$> fst (Run tio w).
Proof.
  intros Ho He. unfold RunSimple, Run. rewrite Ho, He.
  destruct (RunCommand tio w) as [[ch [err|]] acts]; [reflexivity|].
  destruct (chan_recv ch); reflexivity.
Qed.

Lemma RunSimple_agrees_with_Run_witness :
  fst (@RunSimple linux sleep10 false world_signaled)
  = status_code false <$> fst (@Run linux sleep10 world_signaled).
Proof.
  apply (@RunSimple_agrees_with_Run linux sleep10 false world_signaled);
    reflexivity.
Defined.

(** X8: when [cmd.Start] fails after the pipes were set up, [RunSimple]
    returns the exit code resolved from the failure, not -1, whatever
    [preserveStatus]; nothing is selected, signaled or killed. *)
Theorem RunSimple_spawn_failure `{P : Platform}
    (tio : Timeout) (preserveStatus : bool) (w : World) (err : error) :
  stdout_pipe_err w = None ->
  stderr_pipe_err w = None ->
  start_err w = Some err ->
  RunSimple tio preserveStatus w
  = (Some (ResolveExitCode err),
     [ActStart; ActStderr (errorTimeout (mkError (ResolveExitCode err) err))]).
Proof.
  intros Ho He Hs. unfold RunSimple, RunCommand. rewrite Ho, He, Hs.
  reflexivity.
Qed.

Lemma RunSimple_spawn_failure_witness :
  fst (@RunSimple linux sleep10 true world_no_spawn) = Some 127.
Proof.
  rewrite (@RunSimple_spawn_failure linux sleep10 true world_no_spawn
             (errorOther "exec: not found")); reflexivity.
Defined.

(** X9: when setting up a pipe fails, [RunSimple] returns 125 and the
    command is not started: no start, no selection, no signal, no kill,
    whatever the rest of the environment. *)
Theorem RunSimple_pipe_failure `{P : Platform}
    (tio : Timeout) (preserveStatus : bool) (w : World) :
  stdout_pipe_err w <> None \/ stderr_pipe_err w <> None ->
  fst (RunSimple tio preserveStatus w) = Some 125
  /\ count is_start (snd (RunSimple tio preserveStatus w)) = 0%nat
  /\ (forall i, count (is_select i) (snd (RunSimple tio preserveStatus w)) = 0%nat)
  /\ count is_signal (snd (RunSimple tio preserveStatus w)) = 0%nat
  /\ count is_killall (snd (RunSimple tio preserveStatus w)) = 0%nat.
Proof.
  intros H. unfold RunSimple.
  destruct (stdout_pipe_err w); [repeat split; reflexivity|].
  destruct (stderr_pipe_err w); [repeat split; reflexivity|].
  destruct H as [H|H]; contradiction.
Qed.

Lemma RunSimple_pipe_failure_witness :
  fst (@RunSimple linux sleep10 false world_no_pipe) = Some 125
  /\ count is_start (snd (@RunSimple linux sleep10 false world_no_pipe)) = 0%nat.
Proof.
  destruct (@RunSimple_pipe_failure linux sleep10 false world_no_pipe)
    as (H1 & H2 & _).
  - right. discriminate.
  - split; assumption.
Defined.

(** X10: after a successful start with both pipes set up, when the
    process-exit case is selected after the escalation cases [pre],
    [RunSimple] with [preserveStatus] returns the code decoded from the wait
    status; without it, 137 if the last escalation handled was the kill, 124
    if it was the timeout, and the decoded code if there was none. *)
Theorem RunSimple_by_schedule `{P : Platform}
    (tio : Timeout) (w : World) (pre post : list Selected) (e : Selected)
    (st : WaitStatus) :
  stdout_pipe_err w = None ->
  stderr_pipe_err w = None ->
  start_err w = None ->
  selects w = pre ++ e :: post ->
  Forall (fun e' => chosen e' <> 0%nat) pre ->
  chosen e = 0%nat ->
  recv e = RecvWaitStatus st ->
  feasible (handleTimeout tio w) = true ->
  fst (RunSimple tio true w) = Some (WaitStatusToExitCode st)
  /\ fst (RunSimple tio false w)
     = Some (match fold_left phase_set (map chosen pre) exitTypeNormal with
             | exitTypeKilled => 137
             | exitTypeTimedOut => 124
             | exitTypeNormal => WaitStatusToExitCode st
             end).
Proof.
  intros Ho He Hs Hsel Hpre Hc Hr Hf.
  destruct (handleTimeout_exit_after tio w pre e post Hsel Hpre Hc Hf)
    as (s' & _ & Htyp & Hret).
  rewrite Hr in Hret.
  unfold RunSimple, RunCommand. rewrite Ho, He, Hs, chan_recv_goroutine, Hret.
  simpl. split; [reflexivity|].
  unfold GetExitCode, IsKilled, IsTimedOut. simpl. rewrite Htyp.
  destruct (fold_left phase_set (map chosen pre) exitTypeNormal); reflexivity.
Qed.

Lemma RunSimple_by_schedule_witness :
  fst (@RunSimple linux sleep10 true world_signaled) = Some 143
  /\ fst (@RunSimple linux sleep10 false world_signaled) = Some 124.
Proof.
  apply (@RunSimple_by_schedule linux sleep10 world_signaled
           [select_at 100000000 1 0] [] (select_at 100000500 0 15) 15);
    try reflexivity.
  repeat constructor. discriminate.
Defined.

(** ** The timers *)

Lemma int64_in_range z : - 2 ^ 63 <= z -> z <= maxInt64 -> int64 z = z.
Proof.
  unfold int64, maxInt64.
  assert (E63 : 2 ^ 63 = 9223372036854775808) by reflexivity.
  assert (E64 : 2 ^ 64 = 18446744073709551616) by reflexivity.
  rewrite E63, E64. intros Hlo Hhi. rewrite Z.mod_small; lia.
Qed.

Lemma int64_wraps z :
  maxInt64 < z -> z <= 2 * maxInt64 -> int64 z = z - 2 ^ 64.
Proof.
  unfold int64, maxInt64.
  assert (E63 : 2 ^ 63 = 9223372036854775808) by reflexivity.
  assert (E64 : 2 ^ 64 = 18446744073709551616) by reflexivity.
  rewrite E63, E64. intros Hlo Hhi.
  replace (z + 9223372036854775808)
    with (z - 9223372036854775808 + 1 * 18446744073709551616) by lia.
  rewrite Z_mod_plus_full, Z.mod_small; lia.
Qed.

Lemma when_after clock d : clock <= maxInt64 -> clock <= when clock d.
Proof.
  unfold when. intros H.
  destruct (Z.leb_spec d 0); [lia|].
  destruct (Z.ltb_spec maxInt64 (clock + d)); lia.
Qed.

(** X11: with a positive [KillAfter], when the sum of the two durations
    fits in [int64], the kill-after timer is due no earlier than the
    timeout timer: at loop entry the kill-after case cannot be ready unless
    the timeout case is. *)
Theorem kill_timer_not_before_timeout `{P : Platform} (tio : Timeout) (w : World) :
  0 < KillAfter tio ->
  - 2 ^ 63 <= Duration tio ->
  Duration tio + KillAfter tio <= maxInt64 ->
  clock_timeout w <= clock_kill w ->
  clock_kill w <= maxInt64 ->
  exists f1 f2,
    cases_of tio w = [CaseExit; CaseAfter f1 false; CaseAfter f2 false]
    /\ f1 <= f2
    /\ forall clock,
         ready (CaseAfter f2 false) clock = true ->
         ready (CaseAfter f1 false) clock = true.
Proof.
  intros Hk Hd Hsum Hclk Hmax.
  unfold cases_of. destruct (Z.ltb_spec 0 (KillAfter tio)); [|lia].
  eexists _, _. split; [reflexivity|].
  assert (Hle : when (clock_timeout w) (Duration tio)
                <= when (clock_kill w) (int64 (Duration tio + KillAfter tio))).
  { rewrite int64_in_range by lia.
    destruct (Z.leb_spec (Duration tio) 0) as [Hneg|Hpos].
    - pose proof (when_after (clock_kill w)
                    (Duration tio + KillAfter tio) Hmax).
      unfold when at 1. destruct (Z.leb_spec (Duration tio) 0); lia.
    - unfold when.
      destruct (Z.leb_spec (Duration tio) 0); [lia|].
      destruct (Z.leb_spec (Duration tio + KillAfter tio) 0); [lia|].
      destruct (Z.ltb_spec maxInt64 (clock_timeout w + Duration tio));
        destruct (Z.ltb_spec maxInt64
                    (clock_kill w + (Duration tio + KillAfter tio))); lia. }
  split; [exact Hle|].
  intros clock. simpl.
  destruct (Z.leb_spec
              (when (clock_kill w) (int64 (Duration tio + KillAfter tio)))
              clock); [|discriminate].
  intros _.
  destruct (Z.leb_spec (when (clock_timeout w) (Duration tio)) clock);
    [reflexivity|lia].
Qed.

Lemma kill_timer_not_before_timeout_witness :
  exists f1 f2,
    @cases_of linux sleep10 world_escalated
    = [CaseExit; CaseAfter f1 false; CaseAfter f2 false]
    /\ f1 <= f2
    /\ forall clock,
         ready (CaseAfter f2 false) clock = true ->
         ready (CaseAfter f1 false) clock = true.
Proof.
  apply (@kill_timer_not_before_timeout linux sleep10 world_escalated);
    vm_compute; congruence.
Defined.

(** X12: when the two durations are positive and their sum does not fit in
    [int64], the sum wraps to a negative duration and the kill-after timer
    is due at once: the forced kill can be the first thing the loop does,
    before the timeout. *)
Theorem kill_timer_overflow `{P : Platform}
    (tio : Timeout) (w : World) (r : Received) :
  0 < Duration tio -> Duration tio <= maxInt64 ->
  0 < KillAfter tio -> KillAfter tio <= maxInt64 ->
  maxInt64 < Duration tio + KillAfter tio ->
  cases_of tio w !! 2%nat = Some (CaseAfter (clock_kill w) false)
  /\ exists s',
       iteration tio (loop_entry tio w)
         {| sel_clock := clock_kill w; chosen := 2; recv := r |}
       = Some (inl s')
       /\ typ (l_ex s') = exitTypeKilled
       /\ l_acts s' = [ActSelect 2; ActKillall (Foreground tio); ActProcessKill].
Proof.
  intros Hd Hdm Hk Hkm Hsum.
  assert (Hc : cases_of tio w
               = [CaseExit; CaseAfter (when (clock_timeout w) (Duration tio)) false;
                  CaseAfter (clock_kill w) false]).
  { unfold cases_of. destruct (Z.ltb_spec 0 (KillAfter tio)); [|lia].
    rewrite int64_wraps by lia. unfold when at 2.
    assert (E64 : 2 ^ 64 = 18446744073709551616) by reflexivity.
    unfold maxInt64 in *.
    assert (E63 : 2 ^ 63 = 9223372036854775808) by reflexivity.
    rewrite E64. rewrite E63 in *.
    destruct (Z.leb_spec
                (Duration tio + KillAfter tio - 18446744073709551616) 0);
      [reflexivity|lia]. }
  split; [rewrite Hc; reflexivity|].
  unfold iteration, reflect_Select, loop_entry.
  cbn [l_clock l_cases l_ex l_acts sel_clock chosen]. rewrite Hc.
  destruct (Z.ltb_spec 0 (KillAfter tio)); [|lia].
  rewrite Z.leb_refl. cbn [lookup list_lookup ready negb andb].
  rewrite Z.leb_refl.
  eexists. split; [reflexivity|]. split; reflexivity.
Qed.

Lemma kill_timer_overflow_witness :
  @cases_of linux sleep10_overflow world_escalated !! 2%nat
  = Some (CaseAfter 0 false).
Proof.
  apply (@kill_timer_overflow linux sleep10_overflow world_escalated
           (@RecvOther linux)); vm_compute; congruence.
Defined.

Section TimerProperties.

Context `{P : Platform}.

Lemma states_preserve_iteration (Q : Loop -> Prop) tio :
  (forall s e s', inv s -> Q s -> iteration tio s e = Some (inl s') -> Q s') ->
  forall es s, inv s -> Q s -> Forall Q (states tio s es).
Proof.
  intros Hstep. induction es as [|e es IH]; intros s Hi Hq; simpl;
    [constructor|].
  destruct (iteration tio s e) as [[s1|?]|] eqn:Hit; try constructor.
  - eapply Hstep; eassumption.
  - pose proof (iteration_turn _ _ _ _ (inv_armed _ Hi) Hit) as Ht.
    apply IH; [eapply inv_turn|eapply Hstep]; eassumption.
Qed.

Lemma no_third_case_step tio s e s' :
  inv s -> spent_at 2 (l_cases s) = None ->
  iteration tio s e = Some (inl s') -> spent_at 2 (l_cases s') = None.
Proof.
  intros Hi Hq Hit.
  pose proof (iteration_turn _ _ _ _ (inv_armed _ Hi) Hit) as Ht.
  inversion Ht; subst; congruence.
Qed.

(** A slice without a third case: no kill in any outcome. *)
Lemma no_third_case_acts tio w :
  spent_at 2 (cases_of tio w) = None ->
  count (is_select 2) (acts_of (handleTimeout tio w)) = 0%nat
  /\ count is_killall (acts_of (handleTimeout tio w)) = 0%nat
  /\ count is_process_kill (acts_of (handleTimeout tio w)) = 0%nat
  /\ (forall ex acts, handleTimeout tio w = Returned ex acts ->
      IsKilled ex = false).
Proof.
  intros Hq0.
  assert (Hall : forall s,
            s ∈ loop_entry tio w :: states tio (loop_entry tio w) (selects w) ->
            spent_at 2 (l_cases s) = None).
  { intros s Hs. apply elem_of_cons in Hs. destruct Hs as [->|Hs]; [exact Hq0|].
    pose proof (states_preserve_iteration
                  (fun s => spent_at 2 (l_cases s) = None) tio
                  (no_third_case_step tio) (selects w) _
                  (inv_entry tio w) Hq0) as HQ.
    rewrite Forall_forall in HQ. apply HQ, Hs. }
  destruct (feasible (handleTimeout tio w)) eqn:Hf.
  - destruct (handleTimeout_state tio w Hf) as (s' & Hin & Hi & Hacts).
    pose proof (Hall s' Hin) as Hq.
    destruct Hi as [_ _ _ _ H2 Hk Hp _ _ _ _ _ Hkd].
    rewrite Hq in H2, Hk, Hp, Hkd. simpl in *.
    assert (Hc : count (is_select 2) (acts_of (handleTimeout tio w)) = 0%nat
                 /\ count is_killall (acts_of (handleTimeout tio w)) = 0%nat
                 /\ count is_process_kill (acts_of (handleTimeout tio w)) = 0%nat).
    { destruct Hacts as [-> | ->]; rewrite ?count_app, H2, Hk, Hp; auto. }
    destruct Hc as (C2 & Ck & Cp). repeat (split; [assumption|]).
    intros ex acts Hr. unfold IsKilled.
    destruct (typ ex) eqn:Ht; try reflexivity.
    assert (Hkill : IsKilled ex = true) by (unfold IsKilled; rewrite Ht; reflexivity).
    rewrite Hr in Ck. simpl in Ck.
    destruct (handleTimeout_returned _ _ _ _ Hr) as (s2 & Hi2 & -> & Htyp).
    rewrite Ht in Htyp. symmetry in Htyp.
    pose proof (inv_killed _ Hi2 Htyp) as Hs2.
    rewrite count_app, (inv_killall _ Hi2), Hs2 in Ck. discriminate.
  - destruct (handleTimeout tio w); try discriminate.
    repeat split; try reflexivity. discriminate.
Qed.

Lemma timer_due_step tio i f s e s' :
  timer_due i f s -> iteration tio s e = Some (inl s') -> timer_due i f s'.
Proof.
  intros (b & Hl & Hb). unfold iteration, reflect_Select.
  destruct (Z.leb_spec (l_clock s) (sel_clock e)) as [Hclk|]; [|discriminate].
  destruct (l_cases s !! chosen e) as [c|] eqn:Hc; [|discriminate].
  destruct (ready c (sel_clock e)) eqn:Hr; [|discriminate].
  intros Hbody.
  assert (Hs' : l_cases s' = <[chosen e := receive c]> (l_cases s)
                /\ l_clock s' = sel_clock e).
  { unfold body in Hbody.
    destruct (chosen e) as [|[|[|n]]]; inversion Hbody; split; reflexivity. }
  destruct Hs' as [Hcases Hclock]. unfold timer_due. rewrite Hcases, Hclock.
  destruct (decide (chosen e = i)) as [<-|Hne].
  - rewrite Hl in Hc. injection Hc as <-. simpl in Hr.
    exists true. split.
    + rewrite list_lookup_insert_eq; [reflexivity|].
      apply lookup_lt_Some in Hl. exact Hl.
    + intros _. destruct b; simpl in Hr; [discriminate|].
      apply Z.leb_le. exact Hr.
  - exists b. split.
    + rewrite list_lookup_insert_ne; [exact Hl|exact Hne].
    + intros Hb'. specialize (Hb Hb'). lia.
Qed.

End TimerProperties.

(** X13: a [KillAfter] that is zero or negative arms no kill-after case:
    the slice has two cases, neither [killall] nor [Process.Kill] is ever
    called, and no status returned is Killed. *)
Theorem no_kill_when_KillAfter_not_positive `{P : Platform}
    (tio : Timeout) (w : World) :
  KillAfter tio <= 0 ->
  length (cases_of tio w) = 2%nat
  /\ count (is_select 2) (acts_of (handleTimeout tio w)) = 0%nat
  /\ count is_killall (acts_of (handleTimeout tio w)) = 0%nat
  /\ count is_process_kill (acts_of (handleTimeout tio w)) = 0%nat
  /\ (forall ex acts, handleTimeout tio w = Returned ex acts ->
      IsKilled ex = false).
Proof.
  intros Hk.
  assert (Hc : cases_of tio w
               = [CaseExit; CaseAfter (when (clock_timeout w) (Duration tio)) false]).
  { unfold cases_of. destruct (Z.ltb_spec 0 (KillAfter tio)); [lia|reflexivity]. }
  split; [rewrite Hc; reflexivity|].
  apply no_third_case_acts. rewrite Hc. reflexivity.
Qed.

Lemma no_kill_when_KillAfter_not_positive_witness :
  KillAfter sleep10_negative <= 0
  /\ length (@cases_of linux sleep10_negative world_signaled) = 2%nat
  /\ count is_killall
       (acts_of (@handleTimeout linux sleep10_negative world_signaled)) = 0%nat.
Proof.
  assert (H : KillAfter sleep10_negative <= 0) by (vm_compute; congruence).
  destruct (@no_kill_when_KillAfter_not_positive linux sleep10_negative
              world_signaled H) as (Hl & _ & Hc & _).
  split; [exact H|]. split; assumption.
Defined.

(** X14: in every state the loop reaches, if the signal was delivered the
    clock has reached the instant the timeout timer was due, and if
    [killall] was called the clock has reached the instant the kill-after
    timer was due: no signal and no kill ahead of its timer. *)
Theorem no_escalation_before_deadline `{P : Platform} (tio : Timeout) (w : World) :
  Forall (fun s =>
            (count is_signal (l_acts s) = 1%nat ->
             when (clock_timeout w) (Duration tio) <= l_clock s)
            /\ (count is_killall (l_acts s) = 1%nat ->
                when (clock_kill w) (int64 (Duration tio + KillAfter tio))
                <= l_clock s))
    (states tio (loop_entry tio w) (selects w)).
Proof.
  set (F1 := when (clock_timeout w) (Duration tio)).
  set (F2 := when (clock_kill w) (int64 (Duration tio + KillAfter tio))).
  set (Q := fun s : Loop =>
              timer_due 1 F1 s
              /\ (timer_due 2 F2 s \/ spent_at 2 (l_cases s) = None)).
  assert (Hq0 : Q (loop_entry tio w)).
  { unfold Q, timer_due, loop_entry, cases_of. simpl.
    destruct (0 <? KillAfter tio); simpl.
    - split; [|left]; exists false; (split; [reflexivity|discriminate]).
    - split; [|right; reflexivity].
      exists false. split; [reflexivity|discriminate]. }
  assert (Hstep : forall s e s',
            inv s -> Q s -> iteration tio s e = Some (inl s') -> Q s').
  { intros s e s' Hi [H1 H2] Hit. split.
    - eapply timer_due_step; eassumption.
    - destruct H2 as [H2|H2].
      + left. eapply timer_due_step; eassumption.
      + right. eapply no_third_case_step; eassumption. }
  pose proof (states_preserve_iteration Q tio Hstep (selects w) _
                (inv_entry tio w) Hq0) as HQ.
  pose proof (states_preserve_iteration inv tio
                (fun s e s' _ Hi Hit =>
                   inv_turn tio s e s' Hi
                     (iteration_turn _ _ _ _ (inv_armed _ Hi) Hit))
                (selects w) _ (inv_entry tio w) (inv_entry tio w)) as HI.
  rewrite Forall_forall in HQ, HI. apply Forall_forall. intros s Hs.
  destruct (HQ s Hs) as [(b1 & Hl1 & Hb1) H2]. pose proof (HI s Hs) as Hi.
  split.
  - intros Hc. rewrite (inv_signal _ Hi) in Hc. unfold spent_at in Hc.
    rewrite Hl1 in Hc. destruct b1; [auto|discriminate].
  - intros Hc. rewrite (inv_killall _ Hi) in Hc.
    destruct H2 as [(b2 & Hl2 & Hb2)|H2].
    + unfold spent_at in Hc. rewrite Hl2 in Hc. destruct b2; [auto|discriminate].
    + rewrite H2 in Hc. discriminate.
Qed.

Lemma no_escalation_before_deadline_witness :
  Forall (fun s =>
            (count is_signal (l_acts s) = 1%nat -> 100000000 <= l_clock s)
            /\ (count is_killall (l_acts s) = 1%nat -> 200000000 <= l_clock s))
    (@states linux sleep10 (@loop_entry linux sleep10 world_escalated)
       (@selects linux world_escalated)).
Proof.
  exact (@no_escalation_before_deadline linux sleep10 world_escalated).
Defined.

(** ** The wait status that could not be classified *)



